(** * RTL RootFS tool: a shallow embedding of [scripts/rootfs_tool.py]

    The tool checks, builds and extracts the vendor variant of a SquashFS
    image: the modification-time field of the superblock holds the size of
    the checksummed region, and a 16-bit big-endian word is appended so that
    the word sum of the region is zero modulo 65536.

    Python integers are [Z], byte strings are [list byte], the file system is
    a finite map from paths to contents, and each command is a function of
    the [world] that returns an outcome (a value or a raised exception)
    together with the world it leaves behind.

    A read of [n] bytes returns [n] bytes unless the file ends first, as a
    buffered read of a regular file does.  Reads look the file up when they
    run, so a command whose output path is its input path reads what
    [open(..., "wb")] has left of it; the theorems about a command that
    writes take the two paths to be different.  Errors of the operating
    system other than a missing input file are not modelled. *)

From Stdlib Require Import ZArith Lia.
From Stdlib.Strings Require Import Byte.
From stdpp Require Import gmap strings list.

Local Open Scope Z_scope.

(** ** Exceptions, outcomes and the world *)

(** The exceptions the script can raise: [struct.error] from
    [struct.pack]/[struct.unpack], the two [RuntimeError]s raised by the
    script itself, and the error of opening a file that does not exist. *)
Inductive exn : Type :=
  | struct_error
  | RuntimeError (msg : string)
  | FileNotFoundError (path : string).

(** [OutOfFuel] is not a Python outcome: it is what the model of the
    [while True] loop of [cmd_build] returns when its iteration bound is
    used up.  The theorems below show that it is never reached. *)
Inductive outcome (A : Type) : Type :=
  | Ok (a : A)
  | Raise (e : exn)
  | OutOfFuel.
Arguments Ok {A} a.
Arguments Raise {A} e.
Arguments OutOfFuel {A}.

(** The world: the files by path, the position of the one input handle a
    command holds open ([f] or [fIn]), and the lines printed so far. *)
Record world : Type := World {
  files : gmap string (list byte);
  cursor : nat;
  stdout : list string
}.

Definition io (A : Type) : Type := world -> outcome A * world.

Definition ret {A} (a : A) : io A := fun w => (Ok a, w).

Definition raise {A} (e : exn) : io A := fun w => (Raise e, w).

Definition bind {A B} (m : io A) (k : A -> io B) : io B := fun w =>
  match m w with
  | (Ok a, w') => k a w'
  | (Raise e, w') => (Raise e, w')
  | (OutOfFuel, w') => (OutOfFuel, w')
  end.

(** A pure computation that may raise, run inside [io]. *)
Definition lift {A} (r : outcome A) : io A := fun w => (r, w).

Notation "x <- c1 ;; c2" := (bind c1 (fun x => c2))
  (at level 100, c1 at next level, right associativity).
Notation "c1 ;; c2" := (bind c1 (fun _ => c2))
  (at level 100, right associativity).

(** ** File primitives *)

Definition set_files (fs : gmap string (list byte)) (w : world) : world :=
  {| files := fs; cursor := cursor w; stdout := stdout w |}.

Definition set_cursor (p : nat) (w : world) : world :=
  {| files := files w; cursor := p; stdout := stdout w |}.

(** [os.path.getsize(path)] *)
Definition getsize (path : string) : io Z := fun w =>
  match files w !! path with
  | Some d => (Ok (Z.of_nat (length d)), w)
  | None => (Raise (FileNotFoundError path), w)
  end.

(** [open(path, "rb")]: the handle starts at offset 0. *)
Definition open_rb (path : string) : io unit := fun w =>
  match files w !! path with
  | Some _ => (Ok tt, set_cursor 0%nat w)
  | None => (Raise (FileNotFoundError path), w)
  end.

(** [open(path, "wb")]: the file is created, or truncated to length 0. *)
Definition open_wb (path : string) : io unit := fun w =>
  (Ok tt, set_files (<[path := []]> (files w)) w).

(** [f.read(n)]: the next [n] bytes, fewer at the end of the file. *)
Definition f_read (path : string) (n : nat) : io (list byte) := fun w =>
  let b := take n (drop (cursor w) (default [] (files w !! path))) in
  (Ok b, set_cursor (cursor w + length b)%nat w).

(** [f.seek(pos)] *)
Definition f_seek (pos : nat) : io unit := fun w => (Ok tt, set_cursor pos w).

(** [f.tell()] *)
Definition f_tell : io Z := fun w => (Ok (Z.of_nat (cursor w)), w).

(** [fOut.write(b)]: the bytes are appended; the buffer is flushed when the
    [with] block is left, also by an exception. *)
Definition f_write (path : string) (b : list byte) : io unit := fun w =>
  (Ok tt, set_files (alter (fun d => d ++ b) path (files w)) w).

(** [print(s)] *)
Definition print (s : string) : io unit := fun w =>
  (Ok tt, {| files := files w; cursor := cursor w; stdout := stdout w ++ [s] |}).

(** ** The [struct] formats the script uses *)

Definition byte_val (b : byte) : Z := Z.of_N (Byte.to_N b).

Definition byte_of_Z (z : Z) : byte :=
  default x00 (Byte.of_N (Z.to_N (z mod 256))).

(** The unsigned big-endian value of a byte string. *)
Definition be_int (b : list byte) : Z :=
  fold_left (fun acc x => acc * 256 + byte_val x) b 0.

(** [b[i:j]] *)
Definition slice (b : list byte) (i j : nat) : list byte :=
  take (j - i) (drop i b).

(** [struct.unpack(">H", b)] *)
Definition unpack_H (b : list byte) : outcome Z :=
  if decide (length b = 2%nat) then Ok (be_int b) else Raise struct_error.

(** [struct.unpack(">II", b)] *)
Definition unpack_II (b : list byte) : outcome (Z * Z) :=
  if decide (length b = 8%nat)
  then Ok (be_int (slice b 0 4), be_int (slice b 4 8))
  else Raise struct_error.

(** [struct.unpack(">IIIIIH", b)] *)
Definition unpack_IIIIIH (b : list byte) : outcome (Z * Z * Z * Z * Z * Z) :=
  if decide (length b = 22%nat)
  then Ok (be_int (slice b 0 4), be_int (slice b 4 8), be_int (slice b 8 12),
           be_int (slice b 12 16), be_int (slice b 16 20),
           be_int (slice b 20 22))
  else Raise struct_error.

(** [struct.pack(">H", v)]: [struct.error] when [v] is out of range. *)
Definition pack_H (v : Z) : outcome (list byte) :=
  if decide (0 <= v <= 0xFFFF)
  then Ok [byte_of_Z (v / 256); byte_of_Z v]
  else Raise struct_error.

(** [struct.pack(">I", v)]: [struct.error] when [v] is out of range. *)
Definition pack_I (v : Z) : outcome (list byte) :=
  if decide (0 <= v <= 0xFFFFFFFF)
  then Ok [byte_of_Z (v / 16777216); byte_of_Z (v / 65536);
           byte_of_Z (v / 256); byte_of_Z v]
  else Raise struct_error.

(** ** The script *)

Definition SQUASHFS_MAGIC_BE : Z := 0x68737173.
Definition SIZE_OF_SQFS_SUPER_BLOCK : Z := 640.

(** The [argparse] namespace.  Every sub-command sets the paths it uses;
    [checksum_only] is an attribute only after [cmd_sum] has added it, hence
    the option. *)
Record Namespace : Type := {
  rootfs_flash_image : string;
  squashfs_image : string;
  rootfs_image : string;
  checksum_file : string;
  squashfs_out : string;
  checksum_only : option bool
}.

(** [struct.calcsize(">IIIIIH")]: five 4-byte fields and one 2-byte field. *)
Definition header_size : nat := 22.

(** Sequencing of pure computations that may raise. *)
Definition obind {A B} (r : outcome A) (k : A -> outcome B) : outcome B :=
  match r with
  | Ok a => k a
  | Raise e => Raise e
  | OutOfFuel => OutOfFuel
  end.

(** [range(0, n, 2)] *)
Definition range2 (n : nat) : list nat :=
  map (fun k => 2 * k)%nat (seq 0 (Nat.div2 (n + 1))).

(** [_checksum_buffer(b, checksum=0)] *)
Definition _checksum_buffer (b : list byte) (checksum : Z) : outcome Z :=
  fold_left
    (fun acc i =>
       obind acc (fun checksum =>
       obind (unpack_H (slice b i (i + 2))) (fun word =>
       let checksum := checksum + word in
       Ok (Z.land checksum 0xFFFF))))
    (range2 (length b)) (Ok checksum).

(** The loop of [cmd_check]: [n] words are read and summed. *)
Fixpoint check_loop (f : string) (n : nat) (checksum : Z) : io Z :=
  match n with
  | O => ret checksum
  | S n' =>
      b <- f_read f 2 ;;
      word <- lift (unpack_H b) ;;
      let checksum := checksum + word in
      let checksum := Z.land checksum 0xFFFF in
      check_loop f n' checksum
  end.

Definition cmd_check (args : Namespace) : io unit :=
  file_size <- getsize (rootfs_flash_image args) ;;
  let f := rootfs_flash_image args in
  open_rb f ;;
  h <- f_read f header_size ;;
  fields <- lift (unpack_IIIIIH h) ;;
  let '(magic, inode_count, modification_time,
        block_size, fragment_entry_count, compression_id) := fields in
  if decide (magic <> SQUASHFS_MAGIC_BE)
  then raise (RuntimeError "Doesn't appear to be a SquashFS.")
  else
    let rtl_size := modification_time + SIZE_OF_SQFS_SUPER_BLOCK + 2 in
    if decide (rtl_size > file_size)
    then raise (RuntimeError "Not an RTL Squash filesystem")
    else
      f_seek 0 ;;
      checksum <- check_loop f (Z.to_nat (rtl_size / 2)) 0 ;;
      if decide (checksum <> 0)
      then print "Checksum failed"
      else print "Checksum passed".

(** The [while True] loop of [cmd_build].  Each round reads up to 1024
    bytes and stops at the empty read; [fuel] bounds the number of rounds. *)
Fixpoint build_loop (fuel : nat) (fIn fOut : string) (checksum_only : bool)
    (checksum : Z) : io Z :=
  match fuel with
  | O => fun w => (OutOfFuel, w)
  | S fuel' =>
      b <- f_read fIn 1024 ;;
      match b with
      | [] => ret checksum
      | _ =>
          let b := if decide (Z.of_nat (length b) mod 2 <> 0)
                   then b ++ [x00] else b in
          checksum <- lift (_checksum_buffer b checksum) ;;
          (if negb checksum_only then f_write fOut b else ret tt) ;;
          build_loop fuel' fIn fOut checksum_only checksum
      end
  end.

Definition cmd_build (args : Namespace) : io unit :=
  let checksum_only :=
    match checksum_only args with Some v => v | None => false end in
  size <- getsize (squashfs_image args) ;;
  let squashfs_size := size - SIZE_OF_SQFS_SUPER_BLOCK in
  let squashfs_size :=
    if decide (squashfs_size mod 2 <> 0) then squashfs_size + 1
    else squashfs_size in
  let fIn := squashfs_image args in
  open_rb fIn ;;
  header_prefix <- f_read fIn 8 ;;
  fields <- lift (unpack_II header_prefix) ;;
  let '(magic, _) := fields in
  if decide (magic <> SQUASHFS_MAGIC_BE)
  then raise (RuntimeError "Doesn't appear to be a SquashFS.")
  else
    f_read fIn 4 ;;
    packed <- lift (pack_I squashfs_size) ;;
    let header_prefix := header_prefix ++ packed in
    let fOut := rootfs_image args in
    open_wb fOut ;;
    checksum <- lift (_checksum_buffer header_prefix 0) ;;
    (if negb checksum_only then f_write fOut header_prefix else ret tt) ;;
    checksum <- build_loop (S (Z.to_nat size)) fIn fOut checksum_only checksum ;;
    word <- lift (pack_H (Z.land (0x10000 - checksum) 0xFFFF)) ;;
    f_write fOut word.

(** [cmd_sum]: the namespace gets [checksum_only = True] and
    [rootfs_image = checksum_file], then [cmd_build] runs. *)
Definition cmd_sum (args : Namespace) : io unit :=
  let args :=
    {| rootfs_flash_image := rootfs_flash_image args;
       squashfs_image := squashfs_image args;
       rootfs_image := rootfs_image args;
       checksum_file := checksum_file args;
       squashfs_out := squashfs_out args;
       checksum_only := Some true |} in
  let args :=
    {| rootfs_flash_image := rootfs_flash_image args;
       squashfs_image := squashfs_image args;
       rootfs_image := checksum_file args;
       checksum_file := checksum_file args;
       squashfs_out := squashfs_out args;
       checksum_only := checksum_only args |} in
  cmd_build args.

(** The loop of [cmd_extract]: each word is summed, and copied to the
    output unless the read position has reached [file_size]. *)
Fixpoint extract_loop (f fOut : string) (file_size : Z) (n : nat)
    (checksum : Z) : io Z :=
  match n with
  | O => ret checksum
  | S n' =>
      b <- f_read f 2 ;;
      word <- lift (unpack_H b) ;;
      pos <- f_tell ;;
      (if decide (pos <> file_size) then f_write fOut b else ret tt) ;;
      let checksum := checksum + word in
      let checksum := Z.land checksum 0xFFFF in
      extract_loop f fOut file_size n' checksum
  end.

Definition cmd_extract (args : Namespace) : io unit :=
  file_size <- getsize (rootfs_flash_image args) ;;
  let f := rootfs_flash_image args in
  open_rb f ;;
  let fOut := squashfs_out args in
  open_wb fOut ;;
  b <- f_read f header_size ;;
  fields <- lift (unpack_IIIIIH b) ;;
  let '(magic, inode_count, modification_time,
        block_size, fragment_entry_count, compression_id) := fields in
  f_write fOut b ;;
  if decide (magic <> SQUASHFS_MAGIC_BE)
  then raise (RuntimeError "Doesn't appear to be a SquashFS.")
  else
    let rtl_size := modification_time + SIZE_OF_SQFS_SUPER_BLOCK + 2 in
    if decide (rtl_size > file_size)
    then raise (RuntimeError "Not an RTL Squash filesystem")
    else
      f_seek 0 ;;
      checksum <- extract_loop f fOut file_size (Z.to_nat (rtl_size / 2)) 0 ;;
      if decide (checksum <> 0)
      then print "Checksum failed"
      else print "Checksum passed".

(** ** The protected region, as the specification describes it *)

(** Rounding up to the next even number. *)
Definition round_up_even (n : Z) : Z := if decide (n mod 2 <> 0) then n + 1 else n.

(** The complete big-endian 16-bit words of a byte string; an odd last
    byte belongs to no word. *)
Fixpoint be_words (b : list byte) : list Z :=
  match b with
  | hi :: lo :: rest => (byte_val hi * 256 + byte_val lo) :: be_words rest
  | _ => []
  end.

(** The running 16-bit sum: reduced modulo 65536 after every addition. *)
Definition word_sum_from (checksum : Z) (b : list byte) : Z :=
  fold_left (fun acc word => (acc + word) mod 65536) (be_words b) checksum.

Definition word_sum (b : list byte) : Z := word_sum_from 0 b.

(** The word that [cmd_build] appends for a running sum. *)
Definition complement (checksum : Z) : Z := Z.land (0x10000 - checksum) 0xFFFF.

(** A chunk made even by one zero byte, as the loop of [cmd_build] does. *)
Definition pad_even (b : list byte) : list byte :=
  if decide (Z.of_nat (length b) mod 2 <> 0) then b ++ [x00] else b.

(** The size field that [cmd_build] writes for an input of [len] bytes. *)
Definition squashfs_size_of (len : Z) : Z :=
  round_up_even (len - SIZE_OF_SQFS_SUPER_BLOCK).

(** The four bytes of [struct.pack(">I", v)] and the two of
    [struct.pack(">H", v)], for a value in range. *)
Definition bytes_I (v : Z) : list byte :=
  [byte_of_Z (v / 16777216); byte_of_Z (v / 65536); byte_of_Z (v / 256); byte_of_Z v].

Definition bytes_H (v : Z) : list byte := [byte_of_Z (v / 256); byte_of_Z v].

(** What [cmd_build] sums for the input [P]: the first 8 bytes, the new
    size field, and the rest of the file from offset 12, made even. *)
Definition build_payload (P : list byte) : list byte :=
  take 8 P ++ bytes_I (squashfs_size_of (Z.of_nat (length P)))
    ++ pad_even (drop 12 P).

Definition checksum_word (P : list byte) : list byte :=
  bytes_H (complement (word_sum (build_payload P))).

Definition build_image (P : list byte) : list byte :=
  build_payload P ++ checksum_word P.

(** The header fields the commands look at, read off the file. *)
Definition magic_of (X : list byte) : Z := be_int (take 4 X).
Definition size_field_of (X : list byte) : Z := be_int (slice X 8 12).
Definition rtl_size_of (X : list byte) : Z :=
  size_field_of X + SIZE_OF_SQFS_SUPER_BLOCK + 2.

(** Two states of [cmd_extract]: after both files are opened, and after the
    header has been read and written (where a [RuntimeError] leaves it). *)
Definition extract_opened (args : Namespace) (w : world) : world :=
  {| files := <[squashfs_out args := []]> (files w); cursor := 0%nat;
     stdout := stdout w |}.

Definition extract_header_written (args : Namespace) (w : world)
    (X : list byte) : world :=
  {| files := <[squashfs_out args := take 22 X]> (files w); cursor := 22%nat;
     stdout := stdout w |}.

(** The sum of the complete words of a byte string, not reduced. *)
Definition plain_sum (b : list byte) : Z := fold_right Z.add 0 (be_words b).

(** ** Running one command after another *)

(** [cmd_check] run on the file that [cmd_build] has written. *)
Definition check_args (args : Namespace) : Namespace :=
  {| rootfs_flash_image := rootfs_image args;
     squashfs_image := squashfs_image args;
     rootfs_image := rootfs_image args;
     checksum_file := checksum_file args;
     squashfs_out := squashfs_out args;
     checksum_only := checksum_only args |}.

(** The namespace that [cmd_sum] hands to [cmd_build]. *)
Definition sum_args (args : Namespace) : Namespace :=
  {| rootfs_flash_image := rootfs_flash_image args;
     squashfs_image := squashfs_image args;
     rootfs_image := checksum_file args;
     checksum_file := checksum_file args;
     squashfs_out := squashfs_out args;
     checksum_only := Some true |}.

Definition round_trip (args : Namespace) : io unit :=
  cmd_build args ;; cmd_check (check_args args).

(** The run returns normally and its last printed line is the pass line. *)
Definition reports_pass (m : io unit) (w : world) : Prop :=
  exists w', m w = (Ok tt, w') /\ stdout w' = stdout w ++ ["Checksum passed"].

(** ** Concrete files *)

Definition sqsh_magic : list byte := [x68; x73; x71; x73].

Definition example_args : Namespace :=
  {| rootfs_flash_image := "rootfs.bin";
     squashfs_image := "rootfs.sqfs";
     rootfs_image := "rootfs.bin";
     checksum_file := "rootfs.sum";
     squashfs_out := "extracted.sqfs";
     checksum_only := None |}.

Definition example_world (path : string) (content : list byte) : world :=
  {| files := {[path := content]}; cursor := 0%nat; stdout := [] |}.

(** A world in which both input paths of [example_args] hold [content]. *)
Definition example_world_both (content : list byte) : world :=
  {| files := <["rootfs.bin" := content]> {["rootfs.sqfs" := content]};
     cursor := 0%nat; stdout := [] |}.

(** Files that start with the magic, of 12, 20, 22 and 640 bytes; their
    size field is 0. *)
Definition magic_then_zeros (n : nat) : list byte :=
  sqsh_magic ++ replicate (n - 4) x00.

(** A file of [n] zero bytes: the magic is wrong. *)
Definition zeros (n : nat) : list byte := replicate n x00.

(** The 642-byte vendor image built from the 640-byte file: size field 0,
    checksum word [26 1A]. *)
Definition vendor_642 : list byte := build_image (magic_then_zeros 640).

(** ** Bytes and big-endian numbers *)

Lemma byte_val_range (b : byte) : 0 <= byte_val b < 256.
Proof.
  unfold byte_val. pose proof (Byte.to_N_bounded b). lia.
Qed.

Lemma byte_val_of_Z (z : Z) : byte_val (byte_of_Z z) = z mod 256.
Proof.
  unfold byte_val, byte_of_Z.
  assert (Hr : 0 <= z mod 256 < 256) by (apply Z.mod_pos_bound; lia).
  destruct (Byte.of_N (Z.to_N (z mod 256))) as [y|] eqn:E.
  - apply Byte.to_of_N in E. simpl. rewrite E. lia.
  - apply Byte.of_N_None_iff in E. lia.
Qed.

Lemma be_int_snoc (b : list byte) (x : byte) :
  be_int (b ++ [x]) = be_int b * 256 + byte_val x.
Proof. unfold be_int. now rewrite fold_left_app. Qed.

Lemma be_int_2 (hi lo : byte) : be_int [hi; lo] = byte_val hi * 256 + byte_val lo.
Proof. unfold be_int. simpl. lia. Qed.

Lemma be_int_4 (b0 b1 b2 b3 : byte) :
  be_int [b0; b1; b2; b3] =
  byte_val b0 * 16777216 + byte_val b1 * 65536 + byte_val b2 * 256 + byte_val b3.
Proof. unfold be_int. simpl. lia. Qed.

Lemma land_mask16 (z : Z) : Z.land z 0xFFFF = z mod 65536.
Proof. change 0xFFFF with (Z.ones 16). now rewrite Z.land_ones by lia. Qed.

Lemma pack_H_ok (v : Z) :
  0 <= v <= 0xFFFF -> pack_H v = Ok [byte_of_Z (v / 256); byte_of_Z v].
Proof. intros H. unfold pack_H. now rewrite decide_True. Qed.

Lemma pack_I_ok (v : Z) :
  0 <= v <= 0xFFFFFFFF ->
  pack_I v = Ok [byte_of_Z (v / 16777216); byte_of_Z (v / 65536);
                 byte_of_Z (v / 256); byte_of_Z v].
Proof. intros H. unfold pack_I. now rewrite decide_True. Qed.

Lemma be_int_pack_H (v : Z) :
  0 <= v <= 0xFFFF -> be_int [byte_of_Z (v / 256); byte_of_Z v] = v.
Proof.
  intros H. rewrite be_int_2, !byte_val_of_Z.
  rewrite (Z.mod_small (v / 256)) by (split; [apply Z.div_pos; lia | apply Z.div_lt_upper_bound; lia]).
  pose proof (Z.div_mod v 256). lia.
Qed.

Lemma be_int_pack_I (v : Z) :
  0 <= v <= 0xFFFFFFFF ->
  be_int [byte_of_Z (v / 16777216); byte_of_Z (v / 65536);
          byte_of_Z (v / 256); byte_of_Z v] = v.
Proof.
  intros H. rewrite be_int_4, !byte_val_of_Z.
  assert (E1 : v / 65536 = v / 256 / 256) by (rewrite Z.div_div by lia; reflexivity).
  assert (E2 : v / 16777216 = v / 65536 / 256) by (rewrite Z.div_div by lia; reflexivity).
  assert (0 <= v / 16777216 < 256)
    by (split; [apply Z.div_pos; lia | apply Z.div_lt_upper_bound; lia]).
  rewrite (Z.mod_small (v / 16777216)) by lia.
  pose proof (Z.div_mod v 256). pose proof (Z.div_mod (v / 256) 256).
  pose proof (Z.div_mod (v / 65536) 256). lia.
Qed.

(** ** [_checksum_buffer] word by word *)

Lemma list_pair_ind {A} (P : list A -> Prop) :
  P [] -> (forall x, P [x]) -> (forall x y l, P l -> P (x :: y :: l)) ->
  forall l, P l.
Proof.
  intros H0 H1 H2.
  assert (H : forall l, P l /\ forall x, P (x :: l)).
  { induction l as [|a l [IH1 IH2]]; split; auto. }
  intros l. apply H.
Qed.

Lemma range2_SS (n : nat) :
  range2 (S (S n)) = 0%nat :: map (fun i => 2 + i)%nat (range2 n).
Proof.
  unfold range2.
  replace (S (S n) + 1)%nat with (S (S (n + 1))) by lia.
  cbn [Nat.div2]. rewrite <- cons_seq, <- seq_shift. cbn [map].
  f_equal. rewrite !map_map. apply map_ext. intros k. lia.
Qed.

Lemma slice_SS (x y : byte) (l : list byte) (i : nat) :
  slice (x :: y :: l) (2 + i) (2 + i + 2) = slice l i (i + 2).
Proof.
  unfold slice. replace (2 + i + 2 - (2 + i))%nat with (i + 2 - i)%nat by lia.
  reflexivity.
Qed.

Lemma checksum_buffer_nil (checksum : Z) : _checksum_buffer [] checksum = Ok checksum.
Proof. reflexivity. Qed.

Lemma checksum_buffer_cons2 (hi lo : byte) (rest : list byte) (checksum : Z) :
  _checksum_buffer (hi :: lo :: rest) checksum =
  _checksum_buffer rest (Z.land (checksum + be_int [hi; lo]) 0xFFFF).
Proof.
  unfold _checksum_buffer. cbn [length]. rewrite range2_SS. cbn [fold_left].
  change (obind (Ok checksum) ?k) with (k checksum). cbv beta.
  change (slice (hi :: lo :: rest) 0 (0 + 2)) with [hi; lo].
  change (unpack_H [hi; lo]) with (Ok (be_int [hi; lo])).
  cbv beta iota delta [obind].
  generalize (Ok (A:=Z) (Z.land (checksum + be_int [hi; lo]) 65535)).
  induction (range2 (length rest)) as [|i r IH]; intros acc; [reflexivity|].
  cbn [map fold_left]. rewrite slice_SS. apply IH.
Qed.

Lemma checksum_buffer_single (x : byte) (checksum : Z) :
  _checksum_buffer [x] checksum = Raise struct_error.
Proof. reflexivity. Qed.

Lemma word_sum_from_cons2 (hi lo : byte) (rest : list byte) (checksum : Z) :
  word_sum_from checksum (hi :: lo :: rest) =
  word_sum_from ((checksum + be_int [hi; lo]) mod 65536) rest.
Proof. unfold word_sum_from. cbn [be_words fold_left]. now rewrite be_int_2. Qed.

Lemma even_length_SS {A} (x y : A) (l : list A) :
  Z.of_nat (length (x :: y :: l)) mod 2 = 0 -> Z.of_nat (length l) mod 2 = 0.
Proof.
  cbn [length]. intros H.
  replace (Z.of_nat (S (S (length l)))) with (Z.of_nat (length l) + 1 * 2) in H by lia.
  now rewrite Z.mod_add in H by lia.
Qed.

(** On a buffer of even length [_checksum_buffer] returns the running word
    sum; it raises on no such buffer. *)
Lemma checksum_buffer_even (b : list byte) :
  Z.of_nat (length b) mod 2 = 0 ->
  forall checksum, _checksum_buffer b checksum = Ok (word_sum_from checksum b).
Proof.
  induction b as [|x|hi lo rest IH] using list_pair_ind; intros He checksum.
  - reflexivity.
  - discriminate He.
  - rewrite checksum_buffer_cons2, word_sum_from_cons2, land_mask16.
    apply IH. eapply even_length_SS, He.
Qed.

(** On a buffer of odd length the last slice holds one byte, and
    [struct.unpack] raises. *)
Lemma checksum_buffer_odd (b : list byte) :
  Z.of_nat (length b) mod 2 <> 0 ->
  forall checksum, _checksum_buffer b checksum = Raise struct_error.
Proof.
  induction b as [|x|hi lo rest IH] using list_pair_ind; intros He checksum.
  - now contradiction He.
  - reflexivity.
  - rewrite checksum_buffer_cons2. apply IH. intros H. apply He.
    cbn [length].
    replace (Z.of_nat (S (S (length rest)))) with (Z.of_nat (length rest) + 1 * 2) by lia.
    now rewrite Z.mod_add by lia.
Qed.

Lemma word_sum_from_app (a b : list byte) (checksum : Z) :
  Z.of_nat (length a) mod 2 = 0 ->
  word_sum_from checksum (a ++ b) = word_sum_from (word_sum_from checksum a) b.
Proof.
  revert checksum.
  induction a as [|x|hi lo rest IH] using list_pair_ind; intros checksum He.
  - reflexivity.
  - discriminate He.
  - cbn [app]. rewrite !word_sum_from_cons2. apply IH. eapply even_length_SS, He.
Qed.

Lemma word_sum_from_range (b : list byte) (checksum : Z) :
  0 <= checksum < 65536 -> 0 <= word_sum_from checksum b < 65536.
Proof.
  revert checksum.
  induction b as [|x|hi lo rest IH] using list_pair_ind; intros checksum Hc;
    try exact Hc.
  rewrite word_sum_from_cons2. apply IH. apply Z.mod_pos_bound. lia.
Qed.

Lemma complement_range (checksum : Z) : 0 <= complement checksum <= 0xFFFF.
Proof.
  unfold complement. rewrite land_mask16.
  pose proof (Z.mod_pos_bound (0x10000 - checksum) 65536). lia.
Qed.

(** Adding the complement word brings the running sum to zero. *)
Lemma complement_cancels (checksum : Z) :
  0 <= checksum < 65536 -> (checksum + complement checksum) mod 65536 = 0.
Proof.
  intros H. unfold complement. rewrite land_mask16.
  rewrite Zplus_mod_idemp_r.
  replace (checksum + (0x10000 - checksum)) with (1 * 65536) by lia.
  apply Z.mod_mul. lia.
Qed.

(** ** Running the primitives *)

Lemma bind_Ok {A B} (m : io A) (k : A -> io B) (w w' : world) (a : A) :
  m w = (Ok a, w') -> bind m k w = k a w'.
Proof. intros H. unfold bind. now rewrite H. Qed.

Lemma bind_Raise {A B} (m : io A) (k : A -> io B) (w w' : world) (e : exn) :
  m w = (Raise e, w') -> bind m k w = (Raise e, w').
Proof. intros H. unfold bind. now rewrite H. Qed.

Lemma f_read_eq (f : string) (n : nat) (w : world) (X : list byte) :
  files w !! f = Some X ->
  f_read f n w =
  (Ok (take n (drop (cursor w) X)),
   set_cursor (cursor w + length (take n (drop (cursor w) X)))%nat w).
Proof. intros H. unfold f_read. now rewrite H. Qed.

Lemma drop_two_words (X : list byte) (p n : nat) :
  (p + 2 * S n <= length X)%nat ->
  exists hi lo, drop p X = hi :: lo :: drop (p + 2) X.
Proof.
  intros H.
  assert (Hl : length (drop p X) = (length X - p)%nat) by apply length_drop.
  rewrite <- (drop_drop X 2 p).
  destruct (drop p X) as [|hi [|lo D]]; cbn [length] in Hl; try lia.
  exists hi, lo. reflexivity.
Qed.

(** The loop of [cmd_check] sums the [n] words that follow the cursor. *)
Lemma check_loop_eq (f : string) (X : list byte) (n : nat) :
  forall (w : world) (checksum : Z),
  files w !! f = Some X ->
  (cursor w + 2 * n <= length X)%nat ->
  check_loop f n checksum w =
  (Ok (word_sum_from checksum (take (2 * n) (drop (cursor w) X))),
   set_cursor (cursor w + 2 * n) w).
Proof.
  induction n as [|n IH]; intros w checksum Hf Hb.
  - cbn [check_loop]. unfold ret, set_cursor.
    replace (cursor w + 2 * 0)%nat with (cursor w) by lia.
    destruct w; reflexivity.
  - cbn [check_loop].
    destruct (drop_two_words X (cursor w) n Hb) as (hi & lo & Hd).
    rewrite (bind_Ok _ _ w _ _ (f_read_eq f 2 w X Hf)).
    rewrite Hd. cbn [take]. rewrite take_0.
    unfold lift at 1. unfold bind at 1. unfold unpack_H. cbn [length].
    rewrite decide_True by reflexivity.
    rewrite IH; cbn [set_cursor files cursor]; [|assumption|lia].
    replace (2 * S n)%nat with (S (S (2 * n))) by lia. cbn [take].
    rewrite word_sum_from_cons2, land_mask16.
    unfold set_cursor; cbn [files cursor stdout].
    replace (cursor w + 2 + 2 * n)%nat with (cursor w + S (S (2 * n)))%nat by lia.
    reflexivity.
Qed.

(** ** The copy loop of [cmd_build] *)

Lemma pad_even_nil : pad_even [] = [].
Proof. reflexivity. Qed.

Lemma pad_even_length_even (b : list byte) :
  Z.of_nat (length (pad_even b)) mod 2 = 0.
Proof.
  unfold pad_even. destruct (decide (Z.of_nat (length b) mod 2 <> 0)) as [H|H].
  - rewrite length_app. cbn [length].
    pose proof (Z.mod_pos_bound (Z.of_nat (length b)) 2 ltac:(lia)).
    pose proof (Z.div_mod (Z.of_nat (length b)) 2 ltac:(lia)).
    replace (Z.of_nat (length b + 1)) with (0 + (Z.of_nat (length b) / 2 + 1) * 2) by lia.
    now rewrite Z.mod_add by lia.
  - lia.
Qed.

Lemma pad_even_length (b : list byte) :
  Z.of_nat (length (pad_even b)) = round_up_even (Z.of_nat (length b)).
Proof.
  unfold pad_even, round_up_even.
  destruct (decide (Z.of_nat (length b) mod 2 <> 0)); [rewrite length_app; cbn [length]|]; lia.
Qed.

(** Padding the rest of the file chunk by chunk pads it once at its end,
    for a chunk size that is even. *)
Lemma pad_even_chunk (k : nat) (R : list byte) :
  Z.of_nat k mod 2 = 0 ->
  pad_even R = pad_even (take k R) ++ pad_even (drop (length (take k R)) R).
Proof.
  intros Hk. destruct (decide (length R <= k)%nat) as [Hle|Hgt].
  - rewrite take_ge by lia. rewrite drop_all, pad_even_nil. now rewrite app_nil_r.
  - assert (Hl : length (take k R) = k) by (rewrite length_take; lia).
    rewrite Hl.
    assert (Hpar : Z.of_nat (length R) mod 2 = Z.of_nat (length (drop k R)) mod 2).
    { rewrite length_drop.
      pose proof (Z.div_mod (Z.of_nat k) 2 ltac:(lia)).
      replace (Z.of_nat (length R)) with (Z.of_nat (length R - k) + (Z.of_nat k / 2) * 2) by lia.
      now rewrite Z.mod_add by lia. }
    unfold pad_even at 2. rewrite Hl, decide_False by lia.
    unfold pad_even. rewrite <- Hpar.
    destruct (decide (Z.of_nat (length R) mod 2 <> 0)).
    + now rewrite app_assoc, take_drop.
    + now rewrite take_drop.
Qed.

Lemma build_loop_eq (fIn fOut : string) (P : list byte) (checksum_only : bool)
    (fs : gmap string (list byte)) :
  fIn <> fOut ->
  fs !! fIn = Some P ->
  forall (fuel : nat) (w : world) (checksum : Z) (O : list byte),
  files w = <[fOut := O]> fs ->
  (cursor w <= length P)%nat ->
  (length P - cursor w < fuel)%nat ->
  build_loop fuel fIn fOut checksum_only checksum w =
  (Ok (word_sum_from checksum (pad_even (drop (cursor w) P))),
   {| files := <[fOut := if checksum_only then O
                         else O ++ pad_even (drop (cursor w) P)]> fs;
      cursor := length P;
      stdout := stdout w |}).
Proof.
  intros Hne HP.
  induction fuel as [|fuel IH]; intros w checksum O Hw Hc Hfuel; [lia|].
  assert (Hf : files w !! fIn = Some P) by (rewrite Hw, lookup_insert_ne; auto).
  cbn [build_loop].
  rewrite (bind_Ok _ _ w _ _ (f_read_eq fIn 1024 w P Hf)).
  set (R := drop (cursor w) P).
  assert (HR : length R = (length P - cursor w)%nat) by apply length_drop.
  destruct (take 1024 R) as [|c0 chunk] eqn:Echunk.
  - assert (R = []) as ->.
    { destruct R; [reflexivity|discriminate Echunk]. }
    cbn [length] in HR. unfold ret. rewrite pad_even_nil.
    unfold set_cursor. rewrite Hw. destruct checksum_only; rewrite ?app_nil_r;
      cbn [length]; (replace (cursor w + 0)%nat with (length P) by lia); reflexivity.
  - rewrite <- Echunk.
    change (if decide (Z.of_nat (length (take 1024 R)) mod 2 <> 0)
            then take 1024 R ++ [x00] else take 1024 R)
      with (pad_even (take 1024 R)).
    assert (Hlen : (1 <= length (take 1024 R))%nat) by (rewrite Echunk; cbn [length]; lia).
    assert (Hlen' : (length (take 1024 R) <= length R)%nat) by (rewrite length_take; lia).
    unfold lift at 1. unfold bind at 1.
    rewrite (checksum_buffer_even _ (pad_even_length_even _)).
    set (w1 := set_cursor _ w).
    set (w2 := set_files (<[fOut := if checksum_only then O
                                    else O ++ pad_even (take 1024 R)]> fs) w1).
    assert (Hwr : (if negb checksum_only then f_write fOut (pad_even (take 1024 R))
                   else ret tt) w1 = (Ok tt, w2)).
    { subst w2. destruct checksum_only; cbn [negb]; unfold ret, f_write.
      - f_equal. subst w1. unfold set_files, set_cursor. cbn [files cursor stdout].
        now rewrite Hw.
      - f_equal. subst w1. unfold set_files, set_cursor. cbn [files cursor stdout].
        now rewrite Hw, alter_insert_eq. }
    rewrite (bind_Ok _ _ w1 _ _ Hwr).
    rewrite (IH w2 _ (if checksum_only then O else O ++ pad_even (take 1024 R)));
      subst w2 w1; cbn [set_files set_cursor files cursor stdout];
      [|reflexivity|lia|lia].
    rewrite <- (drop_drop P).
    fold R. rewrite <- word_sum_from_app by apply pad_even_length_even.
    rewrite <- (pad_even_chunk 1024 R) by reflexivity.
    destruct checksum_only; [reflexivity|].
    now rewrite <- app_assoc, <- (pad_even_chunk 1024 R) by reflexivity.
Qed.

(** ** [cmd_build] on an input it accepts and on inputs it rejects *)

Lemma take_drop_0 (n : nat) (P : list byte) : take n (drop 0 P) = take n P.
Proof. reflexivity. Qed.

Lemma slice_0_take (P : list byte) (n m : nat) :
  (n <= m)%nat -> slice (take m P) 0 n = take n P.
Proof.
  intros H. unfold slice. rewrite Nat.sub_0_r, drop_0.
  rewrite take_take. f_equal. lia.
Qed.

Section Build.
Variables (args : Namespace) (w : world) (P : list byte).
Hypothesis HP : files w !! squashfs_image args = Some P.
Hypothesis Hne : squashfs_image args <> rootfs_image args.

Lemma cmd_build_short :
  (length P < 8)%nat ->
  cmd_build args w = (Raise struct_error, set_cursor (length P) w).
Proof.
  intros Hlen. unfold cmd_build.
  unfold bind at 1. unfold getsize. rewrite HP.
  unfold bind at 1. unfold open_rb. rewrite HP.
  rewrite (bind_Ok _ _ _ _ _ (f_read_eq _ 8 (set_cursor 0 w) P HP)).
  cbn [set_cursor cursor]. rewrite take_drop_0, take_ge by lia.
  unfold bind at 1, lift at 1, unpack_II. rewrite decide_False by lia.
  reflexivity.
Qed.

Lemma cmd_build_bad_magic :
  (8 <= length P)%nat ->
  be_int (take 4 P) <> SQUASHFS_MAGIC_BE ->
  cmd_build args w =
  (Raise (RuntimeError "Doesn't appear to be a SquashFS."), set_cursor 8 w).
Proof.
  intros Hlen Hm. unfold cmd_build.
  unfold bind at 1. unfold getsize. rewrite HP.
  unfold bind at 1. unfold open_rb. rewrite HP.
  rewrite (bind_Ok _ _ _ _ _ (f_read_eq _ 8 (set_cursor 0 w) P HP)).
  cbn [set_cursor cursor]. rewrite take_drop_0.
  assert (Hl : length (take 8 P) = 8%nat) by (rewrite length_take; lia).
  rewrite Hl.
  unfold bind at 1, lift at 1, unpack_II. rewrite decide_True by assumption.
  rewrite slice_0_take by lia. rewrite decide_True by assumption.
  reflexivity.
Qed.

Lemma cmd_build_size_out_of_range :
  (8 <= length P)%nat ->
  be_int (take 4 P) = SQUASHFS_MAGIC_BE ->
  ~ 0 <= squashfs_size_of (Z.of_nat (length P)) <= 0xFFFFFFFF ->
  cmd_build args w =
  (Raise struct_error, set_cursor (Nat.min 12 (length P)) w).
Proof.
  intros Hlen Hm Hsz. unfold cmd_build.
  unfold bind at 1. unfold getsize. rewrite HP.
  unfold bind at 1. unfold open_rb. rewrite HP.
  rewrite (bind_Ok _ _ _ _ _ (f_read_eq _ 8 (set_cursor 0 w) P HP)).
  cbn [set_cursor cursor]. rewrite take_drop_0.
  assert (Hl : length (take 8 P) = 8%nat) by (rewrite length_take; lia).
  rewrite Hl.
  unfold bind at 1, lift at 1, unpack_II. rewrite decide_True by assumption.
  rewrite slice_0_take by lia. rewrite decide_False by (intros H; now apply H).
  match goal with |- bind (f_read ?f ?n) _ ?w1 = _ =>
    rewrite (bind_Ok _ _ w1 _ _ (f_read_eq f n w1 P HP)) end.
  cbn [set_cursor cursor files stdout].
  unfold bind at 1, lift at 1.
  fold (round_up_even (Z.of_nat (length P) - SIZE_OF_SQFS_SUPER_BLOCK)).
  fold (squashfs_size_of (Z.of_nat (length P))).
  unfold pack_I. rewrite decide_False by assumption.
  unfold set_cursor; cbn [files stdout]. do 2 f_equal.
  rewrite length_take, length_drop. lia.
Qed.

Lemma cmd_build_accepted :
  (8 <= length P)%nat ->
  be_int (take 4 P) = SQUASHFS_MAGIC_BE ->
  0 <= squashfs_size_of (Z.of_nat (length P)) <= 0xFFFFFFFF ->
  cmd_build args w =
  (Ok tt,
   {| files := <[rootfs_image args :=
                  if match checksum_only args with Some v => v | None => false end
                  then checksum_word P else build_image P]> (files w);
      cursor := length P;
      stdout := stdout w |}).
Proof.
  intros Hlen Hm Hsz. unfold cmd_build.
  set (co := match checksum_only args with Some v => v | None => false end).
  unfold bind at 1. unfold getsize. rewrite HP.
  unfold bind at 1. unfold open_rb. rewrite HP.
  rewrite (bind_Ok _ _ _ _ _ (f_read_eq _ 8 (set_cursor 0 w) P HP)).
  cbn [set_cursor cursor]. rewrite take_drop_0.
  assert (Hl : length (take 8 P) = 8%nat) by (rewrite length_take; lia).
  rewrite Hl.
  unfold bind at 1, lift at 1, unpack_II. rewrite decide_True by assumption.
  rewrite slice_0_take by lia. rewrite decide_False by (intros H; now apply H).
  match goal with |- bind (f_read ?f ?n) _ ?w1 = _ =>
    rewrite (bind_Ok _ _ w1 _ _ (f_read_eq f n w1 P HP)) end.
  cbn [set_cursor cursor files stdout].
  unfold bind at 1, lift at 1.
  fold (round_up_even (Z.of_nat (length P) - SIZE_OF_SQFS_SUPER_BLOCK)).
  fold (squashfs_size_of (Z.of_nat (length P))).
  rewrite pack_I_ok by assumption.
  fold (bytes_I (squashfs_size_of (Z.of_nat (length P)))).
  unfold bind at 1, open_wb at 1. cbn [set_files files cursor stdout].
  assert (Hev : Z.of_nat (length (take 8 P ++ bytes_I (squashfs_size_of (Z.of_nat (length P))))) mod 2 = 0)
    by (rewrite length_app, Hl; reflexivity).
  unfold bind at 1, lift at 1. rewrite (checksum_buffer_even _ Hev).
  set (hdr := take 8 P ++ bytes_I (squashfs_size_of (Z.of_nat (length P)))) in *.
  set (pos := (8 + length (take 4 (drop 8 P)))%nat).
  assert (Hpos : pos = Nat.min 12 (length P))
    by (subst pos; rewrite length_take, length_drop; lia).
  set (w1 := {| files := <[rootfs_image args := []]> (files w);
                cursor := pos; stdout := stdout w |}).
  set (w2 := {| files := <[rootfs_image args := if co then [] else hdr]> (files w);
                cursor := pos; stdout := stdout w |}).
  assert (Hwr : (if negb co then f_write (rootfs_image args) hdr else ret tt) w1
                = (Ok tt, w2)).
  { subst w1 w2. destruct co; cbn [negb]; unfold ret, f_write, set_files;
      cbn [files cursor stdout]; [reflexivity|].
    now rewrite alter_insert_eq. }
  rewrite (bind_Ok _ _ w1 _ _ Hwr).
  assert (Hloop := build_loop_eq (squashfs_image args) (rootfs_image args) P co
            (files w) Hne HP (S (Z.to_nat (Z.of_nat (length P)))) w2
            (word_sum_from 0 hdr) (if co then [] else hdr) eq_refl).
  assert (Hc1 : (cursor w2 <= length P)%nat) by (unfold w2; cbn [cursor]; lia).
  assert (Hc2 : (length P - cursor w2 < S (Z.to_nat (Z.of_nat (length P))))%nat)
    by (unfold w2; cbn [cursor]; lia).
  rewrite (bind_Ok _ _ w2 _ _ (Hloop Hc1 Hc2)).
  unfold w2 at 1 2 3. cbn [cursor stdout].
  assert (Hd : drop pos P = drop 12 P).
  { rewrite Hpos. destruct (decide (12 <= length P)%nat).
    - now rewrite Nat.min_l by lia.
    - rewrite Nat.min_r by lia. now rewrite !drop_ge by lia. }
  rewrite Hd. rewrite <- word_sum_from_app by exact Hev.
  subst hdr. rewrite <- app_assoc. fold (build_payload P). fold (word_sum (build_payload P)).
  fold (complement (word_sum (build_payload P))).
  unfold bind at 1, lift at 1.
  rewrite pack_H_ok by apply complement_range.
  fold (bytes_H (complement (word_sum (build_payload P)))). fold (checksum_word P).
  unfold f_write, set_files. cbn [files cursor stdout].
  rewrite alter_insert_eq.
  unfold build_image, build_payload. destruct co; [reflexivity|].
  now rewrite <- !app_assoc.
Qed.
End Build.

(** ** [cmd_check] on an image it accepts and on inputs it rejects *)

Lemma slice_take (X : list byte) (i j m : nat) :
  (j <= m)%nat -> slice (take m X) i j = slice X i j.
Proof.
  intros H. unfold slice. rewrite skipn_firstn_comm, take_take. f_equal. lia.
Qed.

Lemma be_int_nonneg (b : list byte) : 0 <= be_int b.
Proof.
  induction b as [|x b IH] using rev_ind; [reflexivity|].
  rewrite be_int_snoc. pose proof (byte_val_range x). lia.
Qed.

Lemma unpack_header (X : list byte) :
  (22 <= length X)%nat ->
  exists inode_count block_size fragment_entry_count compression_id,
    unpack_IIIIIH (take header_size X) =
    Ok (magic_of X, inode_count, size_field_of X, block_size,
        fragment_entry_count, compression_id).
Proof.
  intros H. unfold unpack_IIIIIH, header_size.
  rewrite decide_True by (rewrite length_take; lia).
  rewrite slice_0_take by lia. rewrite (slice_take X 8 12) by lia.
  unfold magic_of, size_field_of. eauto.
Qed.

Section Check.
Variables (args : Namespace) (w : world) (X : list byte).
Hypothesis HX : files w !! rootfs_flash_image args = Some X.

Lemma cmd_check_short :
  (length X < 22)%nat ->
  cmd_check args w = (Raise struct_error, set_cursor (length X) w).
Proof.
  intros Hlen. unfold cmd_check.
  unfold bind at 1. unfold getsize. rewrite HX.
  unfold bind at 1. unfold open_rb. rewrite HX.
  rewrite (bind_Ok _ _ _ _ _ (f_read_eq _ header_size (set_cursor 0 w) X HX)).
  cbn [set_cursor cursor]. rewrite take_drop_0.
  unfold header_size. rewrite take_ge by lia.
  unfold bind at 1, lift at 1, unpack_IIIIIH. rewrite decide_False by lia.
  reflexivity.
Qed.

Lemma cmd_check_bad_magic :
  (22 <= length X)%nat ->
  magic_of X <> SQUASHFS_MAGIC_BE ->
  cmd_check args w =
  (Raise (RuntimeError "Doesn't appear to be a SquashFS."), set_cursor 22 w).
Proof.
  intros Hlen Hm. unfold cmd_check.
  unfold bind at 1. unfold getsize. rewrite HX.
  unfold bind at 1. unfold open_rb. rewrite HX.
  rewrite (bind_Ok _ _ _ _ _ (f_read_eq _ header_size (set_cursor 0 w) X HX)).
  cbn [set_cursor cursor]. rewrite take_drop_0.
  destruct (unpack_header X Hlen) as (ic & bs & fc & ci & Hu).
  unfold bind at 1, lift at 1. rewrite Hu.
  rewrite decide_True by assumption.
  unfold raise, header_size. rewrite length_take.
  replace (0 + 22 `min` length X)%nat with 22%nat by lia. reflexivity.
Qed.

Lemma cmd_check_bound :
  (22 <= length X)%nat ->
  magic_of X = SQUASHFS_MAGIC_BE ->
  rtl_size_of X > Z.of_nat (length X) ->
  cmd_check args w =
  (Raise (RuntimeError "Not an RTL Squash filesystem"), set_cursor 22 w).
Proof.
  intros Hlen Hm Hb. unfold cmd_check.
  unfold bind at 1. unfold getsize. rewrite HX.
  unfold bind at 1. unfold open_rb. rewrite HX.
  rewrite (bind_Ok _ _ _ _ _ (f_read_eq _ header_size (set_cursor 0 w) X HX)).
  cbn [set_cursor cursor]. rewrite take_drop_0.
  destruct (unpack_header X Hlen) as (ic & bs & fc & ci & Hu).
  unfold bind at 1, lift at 1. rewrite Hu.
  rewrite decide_False by (intros H; now apply H).
  fold (rtl_size_of X). rewrite decide_True by assumption.
  unfold raise, header_size. rewrite length_take.
  replace (0 + 22 `min` length X)%nat with 22%nat by lia. reflexivity.
Qed.

Lemma cmd_check_accepted :
  magic_of X = SQUASHFS_MAGIC_BE ->
  rtl_size_of X <= Z.of_nat (length X) ->
  cmd_check args w =
  (Ok tt,
   {| files := files w;
      cursor := 2 * Z.to_nat (rtl_size_of X / 2);
      stdout := stdout w ++
        [if decide (word_sum (take (2 * Z.to_nat (rtl_size_of X / 2)) X) <> 0)
         then "Checksum failed" else "Checksum passed"] |}).
Proof.
  intros Hm Hb.
  assert (Hsz : 0 <= size_field_of X) by apply be_int_nonneg.
  assert (Hr : rtl_size_of X = size_field_of X + 642)
    by (unfold rtl_size_of, SIZE_OF_SQFS_SUPER_BLOCK; lia).
  assert (Hlen : (22 <= length X)%nat) by lia.
  unfold cmd_check.
  unfold bind at 1. unfold getsize. rewrite HX.
  unfold bind at 1. unfold open_rb. rewrite HX.
  rewrite (bind_Ok _ _ _ _ _ (f_read_eq _ header_size (set_cursor 0 w) X HX)).
  cbn [set_cursor cursor]. rewrite take_drop_0.
  destruct (unpack_header X Hlen) as (ic & bs & fc & ci & Hu).
  unfold bind at 1, lift at 1. rewrite Hu.
  rewrite decide_False by (intros H; now apply H).
  fold (rtl_size_of X). rewrite decide_False by lia.
  unfold bind at 1, f_seek at 1. cbn [set_cursor files cursor stdout].
  set (n := Z.to_nat (rtl_size_of X / 2)).
  assert (Hn : (2 * n <= length X)%nat).
  { subst n. pose proof (Z.div_mod (rtl_size_of X) 2 ltac:(lia)).
    pose proof (Z.mod_pos_bound (rtl_size_of X) 2 ltac:(lia)). lia. }
  match goal with |- bind (check_loop ?f ?k ?c) _ ?w1 = _ =>
    rewrite (bind_Ok _ _ w1 _ _ (check_loop_eq f X k w1 c HX Hn)) end.
  cbn [set_cursor files cursor stdout]. rewrite drop_0.
  fold (word_sum (take (2 * n) X)).
  destruct (decide (word_sum (take (2 * n) X) <> 0)); reflexivity.
Qed.
End Check.

(** ** [cmd_extract] *)

(** The loop of [cmd_extract] sums the [n] words that follow the cursor and
    copies them, except the word that ends where the file ends. *)
Lemma extract_loop_eq (f fOut : string) (X : list byte)
    (fs : gmap string (list byte)) :
  f <> fOut ->
  fs !! f = Some X ->
  forall (n : nat) (w : world) (checksum : Z) (O : list byte),
  files w = <[fOut := O]> fs ->
  (cursor w + 2 * n <= length X)%nat ->
  extract_loop f fOut (Z.of_nat (length X)) n checksum w =
  (Ok (word_sum_from checksum (take (2 * n) (drop (cursor w) X))),
   {| files :=
        <[fOut := O ++ take (2 * n - (if decide (cursor w + 2 * n = length X /\ 0 < n)%nat
                                      then 2 else 0))
                            (drop (cursor w) X)]> fs;
      cursor := cursor w + 2 * n;
      stdout := stdout w |}).
Proof.
  intros Hne HX.
  induction n as [|n IH]; intros w checksum O Hw Hb.
  - cbn [extract_loop]. unfold ret. rewrite decide_False by lia.
    rewrite Nat.mul_0_r, Nat.add_0_r. cbn [Nat.sub].
    rewrite !take_0, app_nil_r, <- Hw.
    destruct w; reflexivity.
  - assert (Hf : files w !! f = Some X) by (rewrite Hw, lookup_insert_ne; auto).
    cbn [extract_loop].
    destruct (drop_two_words X (cursor w) n Hb) as (hi & lo & Hd).
    rewrite (bind_Ok _ _ w _ _ (f_read_eq f 2 w X Hf)).
    rewrite Hd. cbn [take]. rewrite take_0.
    unfold lift at 1. unfold bind at 1. unfold unpack_H. cbn [length].
    rewrite decide_True by reflexivity.
    unfold bind at 1, f_tell at 1. cbn [set_cursor files cursor stdout].
    set (w1 := {| files := files w; cursor := cursor w + 2; stdout := stdout w |}).
    set (O1 := if decide (cursor w + 2 = length X)%nat then O else O ++ [hi; lo]).
    set (w2 := {| files := <[fOut := O1]> fs; cursor := (cursor w + 2)%nat;
                  stdout := stdout w |}).
    assert (Hwr : (if decide (Z.of_nat (cursor w + 2) <> Z.of_nat (length X))
                   then f_write fOut [hi; lo] else ret tt) w1 = (Ok tt, w2)).
    { subst w1 w2 O1. destruct (decide (cursor w + 2 = length X)%nat) as [E|E].
      - rewrite decide_False by lia. unfold ret. now rewrite Hw.
      - rewrite decide_True by lia. unfold f_write, set_files.
        cbn [files cursor stdout]. now rewrite Hw, alter_insert_eq. }
    rewrite (bind_Ok _ _ w1 _ _ Hwr).
    rewrite (IH w2 _ O1 eq_refl) by (unfold w2; cbn [cursor]; lia).
    unfold w2; cbn [cursor stdout].
    replace (2 * S n)%nat with (S (S (2 * n))) by lia. cbn [take].
    rewrite word_sum_from_cons2, land_mask16.
    replace (cursor w + 2 + 2 * n)%nat with (cursor w + S (S (2 * n)))%nat by lia.
    f_equal. f_equal. f_equal. subst O1.
    destruct (decide (cursor w + 2 = length X)%nat) as [E|E].
    + assert (n = 0%nat) as -> by lia.
      rewrite decide_False by lia. rewrite decide_True by lia.
      cbn [Nat.mul Nat.sub]. now rewrite !take_0.
    + destruct n as [|n].
      * rewrite !decide_False by lia. cbn [Nat.mul Nat.sub take].
        now rewrite !take_0, app_nil_r.
      * match goal with
        | |- _ ++ take (_ - ?d1) _ = _ ++ take (_ - ?d2) _ =>
            assert (Hd12 : d1 = d2 /\ (d2 <= 2)%nat) by (repeat case_decide; lia);
            destruct Hd12 as [-> Hle]; remember d2 as d eqn:Ed; clear Ed
        end.
        replace (S (S (2 * S n)) - d)%nat with (S (S (2 * S n - d))) by lia.
        cbn [take]. now rewrite <- app_assoc.
Qed.

Section Extract.
Variables (args : Namespace) (w : world) (X : list byte).
Hypothesis HX : files w !! rootfs_flash_image args = Some X.
Hypothesis Hne : rootfs_flash_image args <> squashfs_out args.

Lemma extract_opened_lookup :
  files (extract_opened args w) !! rootfs_flash_image args = Some X.
Proof. unfold extract_opened. cbn [files]. now rewrite lookup_insert_ne by auto. Qed.

Lemma cmd_extract_short :
  (length X < 22)%nat ->
  cmd_extract args w =
  (Raise struct_error,
   {| files := <[squashfs_out args := []]> (files w); cursor := length X;
      stdout := stdout w |}).
Proof.
  intros Hlen. unfold cmd_extract.
  unfold bind at 1. unfold getsize. rewrite HX.
  unfold bind at 1. unfold open_rb. rewrite HX.
  unfold bind at 1. unfold open_wb at 1.
  change (set_files _ (set_cursor 0 w)) with (extract_opened args w).
  rewrite (bind_Ok _ _ _ _ _ (f_read_eq _ header_size (extract_opened args w) X extract_opened_lookup)).
  cbn [cursor extract_opened]. rewrite take_drop_0.
  unfold header_size. rewrite take_ge by lia.
  unfold bind at 1, lift at 1, unpack_IIIIIH. rewrite decide_False by lia.
  reflexivity.
Qed.

(** The steps up to the write of the header, on a file that holds one. *)
Local Ltac extract_prefix Hlen :=
  unfold cmd_extract;
  unfold bind at 1; unfold getsize; rewrite HX;
  unfold bind at 1; unfold open_rb; rewrite HX;
  unfold bind at 1; unfold open_wb at 1;
  change (set_files _ (set_cursor 0 w)) with (extract_opened args w);
  rewrite (bind_Ok _ _ _ _ _ (f_read_eq _ header_size (extract_opened args w) X extract_opened_lookup));
  cbn [cursor extract_opened]; rewrite take_drop_0;
  let ic := fresh "ic" in let bs := fresh "bs" in
  let fc := fresh "fc" in let ci := fresh "ci" in let Hu := fresh "Hu" in
  destruct (unpack_header X Hlen) as (ic & bs & fc & ci & Hu);
  unfold bind at 1, lift at 1; rewrite Hu;
  unfold bind at 1, f_write at 1, set_files, set_cursor, extract_opened;
  cbn [files cursor stdout];
  rewrite alter_insert_eq; unfold header_size; rewrite length_take;
  replace (0 + 22 `min` length X)%nat with 22%nat by lia;
  cbn [app]; fold (extract_header_written args w X).

Lemma cmd_extract_bad_magic :
  (22 <= length X)%nat ->
  magic_of X <> SQUASHFS_MAGIC_BE ->
  cmd_extract args w =
  (Raise (RuntimeError "Doesn't appear to be a SquashFS."),
   extract_header_written args w X).
Proof.
  intros Hlen Hm. extract_prefix Hlen.
  rewrite decide_True by assumption. reflexivity.
Qed.

Lemma cmd_extract_bound :
  (22 <= length X)%nat ->
  magic_of X = SQUASHFS_MAGIC_BE ->
  rtl_size_of X > Z.of_nat (length X) ->
  cmd_extract args w =
  (Raise (RuntimeError "Not an RTL Squash filesystem"),
   extract_header_written args w X).
Proof.
  intros Hlen Hm Hb. extract_prefix Hlen.
  rewrite decide_False by (intros H; now apply H).
  fold (rtl_size_of X). rewrite decide_True by assumption. reflexivity.
Qed.

Lemma cmd_extract_accepted :
  magic_of X = SQUASHFS_MAGIC_BE ->
  rtl_size_of X <= Z.of_nat (length X) ->
  let n := Z.to_nat (rtl_size_of X / 2) in
  cmd_extract args w =
  (Ok tt,
   {| files :=
        <[squashfs_out args :=
            take 22 X ++
            take (2 * n - (if decide (2 * n = length X /\ 0 < n)%nat
                           then 2 else 0)) X]> (files w);
      cursor := 2 * n;
      stdout := stdout w ++
        [if decide (word_sum (take (2 * n) X) <> 0)
         then "Checksum failed" else "Checksum passed"] |}).
Proof.
  intros Hm Hb n.
  assert (Hsz : 0 <= size_field_of X) by apply be_int_nonneg.
  assert (Hr : rtl_size_of X = size_field_of X + 642)
    by (unfold rtl_size_of, SIZE_OF_SQFS_SUPER_BLOCK; lia).
  assert (Hlen : (22 <= length X)%nat) by lia.
  extract_prefix Hlen.
  rewrite decide_False by (intros H; now apply H).
  fold (rtl_size_of X). rewrite decide_False by lia.
  unfold bind at 1, f_seek at 1, extract_header_written. cbn [set_cursor files cursor stdout].
  fold n.
  assert (Hn : (2 * n <= length X)%nat).
  { subst n. pose proof (Z.div_mod (rtl_size_of X) 2 ltac:(lia)).
    pose proof (Z.mod_pos_bound (rtl_size_of X) 2 ltac:(lia)). lia. }
  match goal with |- bind (extract_loop ?f ?o _ ?k ?c) _ ?w1 = _ =>
    rewrite (bind_Ok _ _ w1 _ _
               (extract_loop_eq f o X (files w) Hne HX k w1 c (take 22 X)
                  eq_refl Hn)) end.
  cbn [files cursor stdout]. rewrite !drop_0. rewrite !Nat.add_0_l.
  fold (word_sum (take (2 * n) X)).
  destruct (decide (word_sum (take (2 * n) X) <> 0)); reflexivity.
Qed.
End Extract.

(** * The claims *)

(** ** C5: checksum algebra *)

Lemma Even_length_mod (b : list byte) :
  Nat.Even (length b) -> Z.of_nat (length b) mod 2 = 0.
Proof.
  intros [m Hm]. rewrite Hm.
  replace (Z.of_nat (2 * m)) with (0 + Z.of_nat m * 2) by lia.
  now rewrite Z.mod_add by lia.
Qed.

Lemma word_sum_from_bytes_H (checksum v : Z) :
  0 <= v <= 0xFFFF ->
  word_sum_from checksum (bytes_H v) = (checksum + v) mod 65536.
Proof.
  intros H. unfold bytes_H. rewrite word_sum_from_cons2.
  now rewrite be_int_pack_H by assumption.
Qed.

(** C5.  For every byte string [B] of even length, [_checksum_buffer]
    returns a sum [s]; [s] plus the complement word
    [(0x10000 - s) & 0xFFFF] is 0 modulo 65536; and summing [B] followed by
    the packed complement word gives the accumulator 0. *)
Theorem checksum_algebra (B : list byte) :
  Nat.Even (length B) ->
  exists s word,
    _checksum_buffer B 0 = Ok s /\
    (s + Z.land (0x10000 - s) 0xFFFF) mod 65536 = 0 /\
    pack_H (Z.land (0x10000 - s) 0xFFFF) = Ok word /\
    _checksum_buffer (B ++ word) 0 = Ok 0.
Proof.
  intros He. apply Even_length_mod in He.
  exists (word_sum B), (bytes_H (complement (word_sum B))).
  assert (Hs : 0 <= word_sum B < 65536) by (apply word_sum_from_range; lia).
  repeat split.
  - now apply checksum_buffer_even.
  - now apply complement_cancels.
  - apply pack_H_ok, complement_range.
  - rewrite checksum_buffer_even.
    + rewrite word_sum_from_app by assumption.
      rewrite word_sum_from_bytes_H by apply complement_range.
      f_equal. now apply complement_cancels.
    + rewrite length_app. cbn [length bytes_H].
      replace (Z.of_nat (length B + 2)) with (Z.of_nat (length B) + 1 * 2) by lia.
      now rewrite Z.mod_add by lia.
Qed.

Lemma checksum_algebra_witness :
  exists s word,
    _checksum_buffer sqsh_magic 0 = Ok s /\
    (s + Z.land (0x10000 - s) 0xFFFF) mod 65536 = 0 /\
    pack_H (Z.land (0x10000 - s) 0xFFFF) = Ok word /\
    _checksum_buffer (sqsh_magic ++ word) 0 = Ok 0.
Proof.
  apply (checksum_algebra sqsh_magic). exists 2%nat. reflexivity.
Defined.

(** ** C3: what [cmd_check] computes and prints *)

Lemma be_words_snoc (a : list byte) (x : byte) :
  Z.of_nat (length a) mod 2 = 0 -> be_words (a ++ [x]) = be_words a.
Proof.
  induction a as [|y|hi lo rest IH] using list_pair_ind; intros He.
  - reflexivity.
  - discriminate He.
  - cbn [app be_words]. f_equal. apply IH. eapply even_length_SS, He.
Qed.

(** The words of the first [n] bytes are the words of the first
    [2 * (n / 2)] bytes. *)
Lemma word_sum_take_words (X : list byte) (n : Z) :
  0 <= n <= Z.of_nat (length X) ->
  word_sum (take (2 * Z.to_nat (n / 2)) X) = word_sum (take (Z.to_nat n) X).
Proof.
  intros Hn.
  pose proof (Z.div_mod n 2 ltac:(lia)) as Hdm.
  pose proof (Z.mod_pos_bound n 2 ltac:(lia)) as Hmb.
  destruct (decide (n mod 2 = 0)) as [E|E].
  - f_equal. f_equal. lia.
  - set (k := (2 * Z.to_nat (n / 2))%nat).
    assert (Hk : Z.to_nat n = S k) by (subst k; lia).
    rewrite Hk.
    assert (Hlt : (k < length X)%nat) by lia.
    destruct (lookup_lt_is_Some_2 X k Hlt) as [x Hx].
    rewrite (take_S_r X k x Hx).
    unfold word_sum, word_sum_from. rewrite be_words_snoc; [reflexivity|].
    rewrite length_take. subst k.
    replace (Z.of_nat ((2 * Z.to_nat (n / 2)) `min` length X))
      with (0 + (n / 2) * 2) by lia.
    now rewrite Z.mod_add by lia.
Qed.

(** C3.  On an input that [cmd_check] accepts (correct magic, protected
    size at most the file size) the command returns normally, leaves the
    files alone, and prints one line: "Checksum passed" when the 16-bit
    word sum of the first [protected_size] bytes, reduced modulo 65536
    after every addition, is 0, and "Checksum failed" otherwise. *)
Theorem check_reports_word_sum (args : Namespace) (w : world) (X : list byte) :
  files w !! rootfs_flash_image args = Some X ->
  magic_of X = SQUASHFS_MAGIC_BE ->
  rtl_size_of X <= Z.of_nat (length X) ->
  exists w',
    cmd_check args w = (Ok tt, w') /\
    files w' = files w /\
    let sum := word_sum (take (Z.to_nat (rtl_size_of X)) X) in
    (sum = 0 -> stdout w' = stdout w ++ ["Checksum passed"]) /\
    (sum <> 0 -> stdout w' = stdout w ++ ["Checksum failed"]).
Proof.
  intros HX Hm Hb.
  rewrite (cmd_check_accepted args w X HX Hm Hb).
  eexists. split; [reflexivity|]. split; [reflexivity|].
  cbn [stdout].
  assert (Hsz : 0 <= size_field_of X) by apply be_int_nonneg.
  rewrite word_sum_take_words
    by (unfold rtl_size_of, SIZE_OF_SQFS_SUPER_BLOCK in *; lia).
  split; intros Hs.
  - now rewrite decide_False by (intros H; now apply H).
  - now rewrite decide_True by assumption.
Qed.

Lemma check_reports_word_sum_witness :
  exists w',
    cmd_check example_args (example_world "rootfs.bin" vendor_642) = (Ok tt, w') /\
    files w' = files (example_world "rootfs.bin" vendor_642) /\
    let sum := word_sum (take (Z.to_nat (rtl_size_of vendor_642)) vendor_642) in
    (sum = 0 -> stdout w' = [] ++ ["Checksum passed"]) /\
    (sum <> 0 -> stdout w' = [] ++ ["Checksum failed"]).
Proof.
  apply (check_reports_word_sum example_args
           (example_world "rootfs.bin" vendor_642) vendor_642).
  - vm_compute. reflexivity.
  - vm_compute. reflexivity.
  - vm_compute. discriminate.
Defined.

(** ** C6: the bound check *)

(** C6, as stated, fails on a file shorter than the 22 bytes of
    [">IIIIIH"]: a 20-byte file with the magic and size field 0 has
    [size_field + 642 > file_size], yet [cmd_check] and [cmd_extract] raise
    [struct.error], not the [RuntimeError] of the bound check. *)
Lemma bound_rejection_short_file :
  let X := magic_then_zeros 20 in
  let w := example_world "rootfs.bin" X in
  magic_of X = SQUASHFS_MAGIC_BE /\
  size_field_of X + 642 > Z.of_nat (length X) /\
  (cmd_check example_args w).1 = Raise struct_error /\
  (cmd_extract example_args w).1 = Raise struct_error /\
  (cmd_check example_args w).1 <> Raise (RuntimeError "Not an RTL Squash filesystem") /\
  (cmd_extract example_args w).1 <> Raise (RuntimeError "Not an RTL Squash filesystem").
Proof. vm_compute. repeat split; congruence. Qed.

(** C6, amended.  On a file of at least 22 bytes with the correct magic and
    [size_field + 642 > file_size], [cmd_check] and [cmd_extract] raise
    [RuntimeError("Not an RTL Squash filesystem")].  Nothing has been summed
    then: the cursor stands at 22, behind the header, where the summing
    pass would have begun with [f.seek(0)]; nothing is printed; [cmd_check]
    leaves the files alone and [cmd_extract] has written the header only. *)
Theorem bound_rejection (args : Namespace) (w : world) (X : list byte) :
  files w !! rootfs_flash_image args = Some X ->
  rootfs_flash_image args <> squashfs_out args ->
  (22 <= length X)%nat ->
  magic_of X = SQUASHFS_MAGIC_BE ->
  size_field_of X + 642 > Z.of_nat (length X) ->
  cmd_check args w =
    (Raise (RuntimeError "Not an RTL Squash filesystem"),
     {| files := files w; cursor := 22; stdout := stdout w |}) /\
  cmd_extract args w =
    (Raise (RuntimeError "Not an RTL Squash filesystem"),
     {| files := <[squashfs_out args := take 22 X]> (files w);
        cursor := 22; stdout := stdout w |}).
Proof.
  intros HX Hne Hlen Hm Hb.
  assert (Hb' : rtl_size_of X > Z.of_nat (length X))
    by (unfold rtl_size_of, SIZE_OF_SQFS_SUPER_BLOCK; lia).
  split.
  - now rewrite (cmd_check_bound args w X HX Hlen Hm Hb').
  - now rewrite (cmd_extract_bound args w X HX Hne Hlen Hm Hb').
Qed.

Lemma bound_rejection_witness :
  let X := magic_then_zeros 22 in
  let w := example_world "rootfs.bin" X in
  cmd_check example_args w =
    (Raise (RuntimeError "Not an RTL Squash filesystem"),
     {| files := files w; cursor := 22; stdout := stdout w |}) /\
  cmd_extract example_args w =
    (Raise (RuntimeError "Not an RTL Squash filesystem"),
     {| files := <["extracted.sqfs" := take 22 X]> (files w);
        cursor := 22; stdout := stdout w |}).
Proof.
  apply (bound_rejection example_args
           (example_world "rootfs.bin" (magic_then_zeros 22))
           (magic_then_zeros 22)).
  - vm_compute. reflexivity.
  - vm_compute. discriminate.
  - vm_compute. lia.
  - vm_compute. reflexivity.
  - vm_compute. reflexivity.
Defined.

(** ** C7: the magic check *)

(** C7, as stated, fails on a file shorter than the header that
    [cmd_check] and [cmd_extract] unpack: on 20 zero bytes they raise
    [struct.error]. *)
Lemma magic_rejection_short_file :
  let X := zeros 20 in
  let w := example_world_both X in
  magic_of X <> SQUASHFS_MAGIC_BE /\
  (cmd_check example_args w).1 = Raise struct_error /\
  (cmd_extract example_args w).1 = Raise struct_error /\
  (cmd_check example_args w).1 <> Raise (RuntimeError "Doesn't appear to be a SquashFS.").
Proof. vm_compute. repeat split; congruence. Qed.

Lemma cmd_sum_eq (args : Namespace) : cmd_sum args = cmd_build (sum_args args).
Proof. reflexivity. Qed.

(** C7, amended.  On a file whose first 4 bytes are not the magic,
    [cmd_build] and [cmd_sum] raise
    [RuntimeError("Doesn't appear to be a SquashFS.")] when the file has at
    least 8 bytes, and [cmd_check] and [cmd_extract] raise it when the file
    has at least 22 bytes. *)
Theorem magic_rejection (args : Namespace) (w : world) (X : list byte) :
  magic_of X <> SQUASHFS_MAGIC_BE ->
  (files w !! squashfs_image args = Some X ->
   (8 <= length X)%nat ->
   (cmd_build args w).1 = Raise (RuntimeError "Doesn't appear to be a SquashFS.") /\
   (cmd_sum args w).1 = Raise (RuntimeError "Doesn't appear to be a SquashFS.")) /\
  (files w !! rootfs_flash_image args = Some X ->
   rootfs_flash_image args <> squashfs_out args ->
   (22 <= length X)%nat ->
   (cmd_check args w).1 = Raise (RuntimeError "Doesn't appear to be a SquashFS.") /\
   (cmd_extract args w).1 = Raise (RuntimeError "Doesn't appear to be a SquashFS.")).
Proof.
  intros Hm. split.
  - intros HX Hlen. split.
    + now rewrite (cmd_build_bad_magic args w X HX Hlen Hm).
    + rewrite cmd_sum_eq.
      now rewrite (cmd_build_bad_magic (sum_args args) w X HX Hlen Hm).
  - intros HX Hne Hlen. split.
    + now rewrite (cmd_check_bad_magic args w X HX Hlen Hm).
    + now rewrite (cmd_extract_bad_magic args w X HX Hne Hlen Hm).
Qed.

Lemma magic_rejection_witness :
  let w := example_world_both (zeros 22) in
  ((cmd_build example_args w).1 = Raise (RuntimeError "Doesn't appear to be a SquashFS.") /\
   (cmd_sum example_args w).1 = Raise (RuntimeError "Doesn't appear to be a SquashFS.")) /\
  ((cmd_check example_args w).1 = Raise (RuntimeError "Doesn't appear to be a SquashFS.") /\
   (cmd_extract example_args w).1 = Raise (RuntimeError "Doesn't appear to be a SquashFS.")).
Proof.
  assert (Hm : magic_of (zeros 22) <> SQUASHFS_MAGIC_BE) by (vm_compute; discriminate).
  destruct (magic_rejection example_args (example_world_both (zeros 22)) (zeros 22) Hm)
    as [Hb Hc].
  split.
  - apply Hb; [vm_compute; reflexivity | vm_compute; lia].
  - apply Hc; [vm_compute; reflexivity | vm_compute; discriminate | vm_compute; lia].
Defined.

(** ** C9: the output of [cmd_extract] when it raises *)

(** C9, as stated, gives the header 18 bytes.  [struct.calcsize(">IIIIIH")]
    is 22: on 22 zero bytes [cmd_extract] raises the magic error and leaves
    all 22 bytes in the output, not the first 18. *)
Lemma extract_error_header_not_18 :
  let X := zeros 22 in
  let r := cmd_extract example_args (example_world "rootfs.bin" X) in
  r.1 = Raise (RuntimeError "Doesn't appear to be a SquashFS.") /\
  files r.2 !! "extracted.sqfs" = Some X /\
  length X = 22%nat /\
  files r.2 !! "extracted.sqfs" <> Some (take 18 X).
Proof. vm_compute. repeat split; congruence. Qed.

(** C9, amended.  When [cmd_extract] raises a [RuntimeError] (bad magic or
    protected size beyond the file size), the output file exists and holds
    exactly the 22-byte header read from the input: the header is written
    before either check. *)
Theorem extract_error_leaves_header
    (args : Namespace) (w w' : world) (X : list byte) (msg : string) :
  files w !! rootfs_flash_image args = Some X ->
  rootfs_flash_image args <> squashfs_out args ->
  cmd_extract args w = (Raise (RuntimeError msg), w') ->
  files w' !! squashfs_out args = Some (take 22 X) /\
  length (take 22 X) = 22%nat /\
  (msg = "Doesn't appear to be a SquashFS." \/
   msg = "Not an RTL Squash filesystem").
Proof.
  intros HX Hne Hr.
  destruct (decide (length X < 22)%nat) as [Hs|Hl].
  { rewrite (cmd_extract_short args w X HX Hne Hs) in Hr. discriminate Hr. }
  assert (Hlen : (22 <= length X)%nat) by lia.
  assert (Ht : length (take 22 X) = 22%nat) by (rewrite length_take; lia).
  destruct (decide (magic_of X = SQUASHFS_MAGIC_BE)) as [Hm|Hm].
  - destruct (decide (rtl_size_of X > Z.of_nat (length X))) as [Hb|Hb].
    + rewrite (cmd_extract_bound args w X HX Hne Hlen Hm Hb) in Hr.
      injection Hr as <- <-. cbn [files extract_header_written].
      rewrite lookup_insert_eq. auto.
    + rewrite (cmd_extract_accepted args w X HX Hne Hm ltac:(lia)) in Hr.
      discriminate Hr.
  - rewrite (cmd_extract_bad_magic args w X HX Hne Hlen Hm) in Hr.
    injection Hr as <- <-. cbn [files extract_header_written].
    rewrite lookup_insert_eq. auto.
Qed.

Lemma extract_error_leaves_header_witness :
  let X := zeros 22 in
  let w := example_world "rootfs.bin" X in
  files (cmd_extract example_args w).2 !! "extracted.sqfs" = Some (take 22 X) /\
  length (take 22 X) = 22%nat /\
  ("Doesn't appear to be a SquashFS." = "Doesn't appear to be a SquashFS." \/
   "Doesn't appear to be a SquashFS." = "Not an RTL Squash filesystem").
Proof.
  apply (extract_error_leaves_header example_args
           (example_world "rootfs.bin" (zeros 22))
           (cmd_extract example_args (example_world "rootfs.bin" (zeros 22))).2
           (zeros 22) "Doesn't appear to be a SquashFS.").
  - vm_compute. reflexivity.
  - vm_compute. discriminate.
  - vm_compute. reflexivity.
Defined.

(** ** C2: the length of the output of [cmd_extract] *)

(** On an accepted image whose protected region is the whole file and of
    even length, [cmd_extract] writes the 22-byte header and then the
    protected region without its last word: the header is there twice. *)
Lemma extract_output (args : Namespace) (w : world) (X : list byte) :
  files w !! rootfs_flash_image args = Some X ->
  rootfs_flash_image args <> squashfs_out args ->
  magic_of X = SQUASHFS_MAGIC_BE ->
  rtl_size_of X = Z.of_nat (length X) ->
  Z.of_nat (length X) mod 2 = 0 ->
  exists w' out,
    cmd_extract args w = (Ok tt, w') /\
    files w' !! squashfs_out args = Some out /\
    out = take 22 X ++ take (length X - 2) X /\
    Z.of_nat (length out) = rtl_size_of X + 20.
Proof.
  intros HX Hne Hm Hr He.
  assert (Hsz : 0 <= size_field_of X) by apply be_int_nonneg.
  assert (Hlen : (642 <= length X)%nat)
    by (unfold rtl_size_of, SIZE_OF_SQFS_SUPER_BLOCK in Hr; lia).
  pose proof (cmd_extract_accepted args w X HX Hne Hm ltac:(lia)) as Hacc.
  cbv zeta in Hacc.
  assert (Hn : (2 * Z.to_nat (rtl_size_of X / 2))%nat = length X).
  { pose proof (Z.div_mod (Z.of_nat (length X)) 2 ltac:(lia)). rewrite Hr. lia. }
  rewrite Hn in Hacc. rewrite decide_True in Hacc by lia.
  eexists _, _. split; [exact Hacc|]. cbn [files].
  rewrite lookup_insert_eq. split; [reflexivity|]. split; [reflexivity|].
  rewrite length_app, !length_take. lia.
Qed.

(** C2, on the code.  On the 642-byte vendor image ([protected_size] =
    [file_size] = 642, a valid checksum) [cmd_extract] passes the check and
    writes 662 bytes: the 22-byte header, then the first 640 bytes of the
    image.  The claim gives the output [protected_size - 2] = 640 bytes. *)
Theorem extract_output_length_vendor_642 :
  let X := vendor_642 in
  let r := cmd_extract example_args (example_world "rootfs.bin" X) in
  magic_of X = SQUASHFS_MAGIC_BE /\
  rtl_size_of X = 642 /\
  length X = 642%nat /\
  r.1 = Ok tt /\
  stdout r.2 = ["Checksum passed"] /\
  files r.2 !! "extracted.sqfs" = Some (take 22 X ++ take 640 X) /\
  length (take 22 X ++ take 640 X) = 662%nat.
Proof. vm_compute. repeat split; reflexivity. Qed.

(** ** The image that [cmd_build] writes *)

Lemma round_up_even_eq (n : Z) : round_up_even n = n + n mod 2.
Proof.
  unfold round_up_even. pose proof (Z.mod_pos_bound n 2 ltac:(lia)).
  destruct (decide (n mod 2 <> 0)); lia.
Qed.

Lemma round_up_even_shift (n k : Z) :
  round_up_even (n - 2 * k) = round_up_even n - 2 * k.
Proof.
  rewrite !round_up_even_eq.
  replace (n - 2 * k) with (n + (- k) * 2) by lia.
  rewrite Z.mod_add by lia. lia.
Qed.

Lemma length_build_payload (P : list byte) :
  (12 <= length P)%nat ->
  Z.of_nat (length (build_payload P)) = round_up_even (Z.of_nat (length P)).
Proof.
  intros H. unfold build_payload.
  rewrite !length_app, length_take. cbn [bytes_I length].
  rewrite !Nat2Z.inj_add, pad_even_length, length_drop.
  replace (Z.of_nat (length P - 12)) with (Z.of_nat (length P) - 2 * 6) by lia.
  rewrite round_up_even_shift. lia.
Qed.

Lemma length_build_image (P : list byte) :
  (12 <= length P)%nat ->
  Z.of_nat (length (build_image P)) = round_up_even (Z.of_nat (length P)) + 2.
Proof.
  intros H. unfold build_image. rewrite length_app, Nat2Z.inj_add.
  rewrite length_build_payload by assumption. reflexivity.
Qed.

Lemma build_payload_even (P : list byte) :
  (8 <= length P)%nat -> Z.of_nat (length (build_payload P)) mod 2 = 0.
Proof.
  intros H. unfold build_payload.
  rewrite app_assoc, length_app, Nat2Z.inj_add.
  rewrite length_app, length_take. cbn [bytes_I length].
  replace (8 `min` length P + 4)%nat with 12%nat by lia.
  pose proof (pad_even_length_even (drop 12 P)) as He.
  replace (Z.of_nat 12 + Z.of_nat (length (pad_even (drop 12 P))))
    with (Z.of_nat (length (pad_even (drop 12 P))) + 6 * 2) by lia.
  now rewrite Z.mod_add by lia.
Qed.

Lemma magic_of_build_image (P : list byte) :
  (8 <= length P)%nat -> magic_of (build_image P) = magic_of P.
Proof.
  intros H. unfold magic_of, build_image, build_payload.
  rewrite <- !app_assoc.
  rewrite take_app_le by (rewrite length_take; lia).
  rewrite take_take. f_equal.
Qed.

Lemma size_field_of_build_image (P : list byte) :
  (8 <= length P)%nat ->
  0 <= squashfs_size_of (Z.of_nat (length P)) <= 0xFFFFFFFF ->
  size_field_of (build_image P) = squashfs_size_of (Z.of_nat (length P)).
Proof.
  intros H Hs. unfold size_field_of, slice, build_image, build_payload.
  rewrite <- !app_assoc.
  rewrite drop_app_length' by (rewrite length_take; lia).
  unfold bytes_I. cbn [app Nat.sub take]. rewrite take_0.
  now apply be_int_pack_I.
Qed.

Lemma squashfs_size_of_nonneg (len : Z) :
  0 <= squashfs_size_of len -> 639 <= len.
Proof.
  unfold squashfs_size_of, SIZE_OF_SQFS_SUPER_BLOCK. rewrite round_up_even_eq.
  pose proof (Z.mod_pos_bound (len - 640) 2 ltac:(lia)). lia.
Qed.

(** The word sum of a built image is zero. *)
Lemma word_sum_build_image (P : list byte) :
  (8 <= length P)%nat -> word_sum (build_image P) = 0.
Proof.
  intros H. unfold word_sum, build_image.
  rewrite word_sum_from_app by now apply build_payload_even.
  unfold checksum_word. rewrite word_sum_from_bytes_H by apply complement_range.
  apply complement_cancels. apply word_sum_from_range. lia.
Qed.

(** [cmd_build] returns normally exactly on the inputs of at least 8 bytes
    with the magic whose new size field fits 32 bits. *)
Lemma cmd_build_Ok_inv (args : Namespace) (w : world) (P : list byte) :
  files w !! squashfs_image args = Some P ->
  (cmd_build args w).1 = Ok tt ->
  (8 <= length P)%nat /\
  magic_of P = SQUASHFS_MAGIC_BE /\
  0 <= squashfs_size_of (Z.of_nat (length P)) <= 0xFFFFFFFF.
Proof.
  intros HP Hok.
  destruct (decide (length P < 8)%nat) as [Hs|Hl].
  { rewrite (cmd_build_short args w P HP Hs) in Hok. discriminate Hok. }
  assert (Hlen : (8 <= length P)%nat) by lia.
  destruct (decide (magic_of P = SQUASHFS_MAGIC_BE)) as [Hm|Hm].
  - destruct (decide (0 <= squashfs_size_of (Z.of_nat (length P)) <= 0xFFFFFFFF))
      as [Hr|Hr]; [auto|].
    rewrite (cmd_build_size_out_of_range args w P HP Hlen Hm Hr) in Hok.
    discriminate Hok.
  - rewrite (cmd_build_bad_magic args w P HP Hlen Hm) in Hok. discriminate Hok.
Qed.

(** The outcome of [cmd_build] when it is not in checksum-only mode. *)
Lemma cmd_build_image (args : Namespace) (w : world) (P : list byte) :
  files w !! squashfs_image args = Some P ->
  squashfs_image args <> rootfs_image args ->
  checksum_only args <> Some true ->
  (cmd_build args w).1 = Ok tt ->
  cmd_build args w =
  (Ok tt, {| files := <[rootfs_image args := build_image P]> (files w);
             cursor := length P; stdout := stdout w |}).
Proof.
  intros HP Hne Hco Hok.
  destruct (cmd_build_Ok_inv args w P HP Hok) as (Hlen & Hm & Hr).
  rewrite (cmd_build_accepted args w P HP Hne Hlen Hm Hr).
  destruct (checksum_only args) as [[|]|]; [congruence|reflexivity|reflexivity].
Qed.

(** The iteration bound of the copy loop is never used up: [cmd_build]
    returns or raises on every input file. *)
Lemma cmd_build_terminates (args : Namespace) (w : world) (P : list byte) :
  files w !! squashfs_image args = Some P ->
  squashfs_image args <> rootfs_image args ->
  (cmd_build args w).1 <> OutOfFuel.
Proof.
  intros HP Hne.
  destruct (decide (length P < 8)%nat) as [Hs|Hl].
  { now rewrite (cmd_build_short args w P HP Hs). }
  assert (Hlen : (8 <= length P)%nat) by lia.
  destruct (decide (magic_of P = SQUASHFS_MAGIC_BE)) as [Hm|Hm].
  - destruct (decide (0 <= squashfs_size_of (Z.of_nat (length P)) <= 0xFFFFFFFF))
      as [Hr|Hr].
    + now rewrite (cmd_build_accepted args w P HP Hne Hlen Hm Hr).
    + now rewrite (cmd_build_size_out_of_range args w P HP Hlen Hm Hr).
  - now rewrite (cmd_build_bad_magic args w P HP Hlen Hm).
Qed.

(** ** C1: building, then checking *)

(** C1, as stated, fails on a short input: on a 12-byte file with the magic
    [cmd_build] raises [struct.error], since the size field
    [12 - 640 = -628] does not pack as an unsigned 32-bit number; no output
    is written and the round trip does not report a pass. *)
Lemma round_trip_short_input :
  let P := magic_then_zeros 12 in
  let w := example_world "rootfs.sqfs" P in
  magic_of P = SQUASHFS_MAGIC_BE /\
  (12 <= length P)%nat /\
  (cmd_build example_args w).1 = Raise struct_error /\
  files (cmd_build example_args w).2 !! "rootfs.bin" = None /\
  ~ reports_pass (round_trip example_args) w.
Proof.
  cbv zeta. repeat split; try (vm_compute; reflexivity).
  intros (w' & Hrun & _). vm_compute in Hrun. discriminate Hrun.
Qed.

(** C1, amended.  For an input with the magic whose length is at least 639
    and at most 4294967934 bytes (so that the size field, the length minus
    640 rounded up to even, is an unsigned 32-bit number), [cmd_check] run
    on the file that [cmd_build] writes prints "Checksum passed". *)
Theorem round_trip_passes (args : Namespace) (w : world) (P : list byte) :
  files w !! squashfs_image args = Some P ->
  squashfs_image args <> rootfs_image args ->
  checksum_only args <> Some true ->
  magic_of P = SQUASHFS_MAGIC_BE ->
  639 <= Z.of_nat (length P) <= 4294967934 ->
  reports_pass (round_trip args) w.
Proof.
  intros HP Hne Hco Hm Hlen.
  assert (H8 : (8 <= length P)%nat) by lia.
  assert (H12 : (12 <= length P)%nat) by lia.
  assert (Hsq : squashfs_size_of (Z.of_nat (length P))
                = round_up_even (Z.of_nat (length P)) - 640).
  { unfold squashfs_size_of, SIZE_OF_SQFS_SUPER_BLOCK.
    now rewrite (round_up_even_shift _ 320). }
  assert (Hru := round_up_even_eq (Z.of_nat (length P))).
  pose proof (Z.mod_pos_bound (Z.of_nat (length P)) 2 ltac:(lia)) as Hmb.
  pose proof (Z.div_mod (Z.of_nat (length P)) 2 ltac:(lia)) as Hdm.
  assert (Hr : 0 <= squashfs_size_of (Z.of_nat (length P)) <= 0xFFFFFFFF) by lia.
  assert (Hbuild := cmd_build_accepted args w P HP Hne H8 Hm Hr).
  assert (Hco' : match checksum_only args with Some v => v | None => false end = false)
    by (destruct (checksum_only args) as [[|]|]; congruence).
  rewrite Hco' in Hbuild.
  unfold reports_pass, round_trip. rewrite (bind_Ok _ _ _ _ _ Hbuild).
  set (X := build_image P) in *.
  set (w1 := {| files := <[rootfs_image args := X]> (files w);
                cursor := length P; stdout := stdout w |}).
  assert (HX : files w1 !! rootfs_flash_image (check_args args) = Some X)
    by (unfold w1; cbn [files check_args rootfs_flash_image]; apply lookup_insert_eq).
  assert (HmX : magic_of X = SQUASHFS_MAGIC_BE)
    by (unfold X; now rewrite magic_of_build_image).
  assert (HlX : Z.of_nat (length X) = round_up_even (Z.of_nat (length P)) + 2)
    by (unfold X; now apply length_build_image).
  assert (HrX : rtl_size_of X = Z.of_nat (length X)).
  { unfold rtl_size_of, SIZE_OF_SQFS_SUPER_BLOCK, X.
    rewrite size_field_of_build_image by assumption. fold X. lia. }
  rewrite (cmd_check_accepted (check_args args) w1 X HX HmX ltac:(lia)).
  eexists. split; [reflexivity|]. cbn [stdout w1].
  assert (Hn : (2 * Z.to_nat (rtl_size_of X / 2))%nat = length X).
  { rewrite HrX, HlX.
    replace (round_up_even (Z.of_nat (length P)) + 2)
      with ((Z.of_nat (length P) / 2 + Z.of_nat (length P) mod 2 + 1) * 2) by lia.
    rewrite Z.div_mul by lia. lia. }
  rewrite Hn, firstn_all. unfold X. rewrite word_sum_build_image by assumption.
  reflexivity.
Qed.

Lemma round_trip_passes_witness :
  reports_pass (round_trip example_args)
    (example_world "rootfs.sqfs" (magic_then_zeros 640)).
Proof.
  apply (round_trip_passes example_args
           (example_world "rootfs.sqfs" (magic_then_zeros 640))
           (magic_then_zeros 640)).
  - vm_compute. reflexivity.
  - vm_compute. discriminate.
  - vm_compute. discriminate.
  - vm_compute. reflexivity.
  - vm_compute. split; discriminate.
Defined.

(** ** C4: the size field of the built image *)

Lemma build_image_depends (P P' : list byte) :
  length P' = length P -> take 8 P' = take 8 P -> drop 12 P' = drop 12 P ->
  build_image P' = build_image P.
Proof.
  intros Hl Ht Hd. unfold build_image, checksum_word, build_payload.
  now rewrite Hl, Ht, Hd.
Qed.

(** C4.  When [cmd_build] accepts its input, bytes 8 to 11 of the output
    are the big-endian input length minus 640, rounded up to even; and an
    input of the same length that differs only in its own bytes 8 to 11 is
    accepted too and gives the same output file. *)
Theorem build_size_field (args : Namespace) (w : world) (P : list byte) :
  files w !! squashfs_image args = Some P ->
  squashfs_image args <> rootfs_image args ->
  checksum_only args <> Some true ->
  (cmd_build args w).1 = Ok tt ->
  exists out,
    files (cmd_build args w).2 !! rootfs_image args = Some out /\
    (12 <= length out)%nat /\
    be_int (slice out 8 12) = round_up_even (Z.of_nat (length P) - 640) /\
    forall (w' : world) (P' : list byte),
      files w' !! squashfs_image args = Some P' ->
      length P' = length P -> take 8 P' = take 8 P -> drop 12 P' = drop 12 P ->
      (cmd_build args w').1 = Ok tt /\
      files (cmd_build args w').2 !! rootfs_image args = Some out.
Proof.
  intros HP Hne Hco Hok.
  destruct (cmd_build_Ok_inv args w P HP Hok) as (Hlen & Hm & Hr).
  rewrite (cmd_build_image args w P HP Hne Hco Hok). cbn [snd files].
  exists (build_image P). rewrite lookup_insert_eq.
  split; [reflexivity|]. split; [|split].
  - pose proof (squashfs_size_of_nonneg _ (proj1 Hr)).
    pose proof (length_build_image P ltac:(lia)) as Hl.
    rewrite round_up_even_eq in Hl.
    pose proof (Z.mod_pos_bound (Z.of_nat (length P)) 2 ltac:(lia)). lia.
  - fold (size_field_of (build_image P)).
    now rewrite size_field_of_build_image.
  - intros w' P' HP' Hl Ht Hd.
    assert (Hlen' : (8 <= length P')%nat) by lia.
    assert (Hm' : magic_of P' = SQUASHFS_MAGIC_BE).
    { unfold magic_of in *. rewrite <- Hm.
      assert (E : forall Q : list byte, take 4 Q = take 4 (take 8 Q))
        by (intros Q; rewrite take_take; f_equal).
      now rewrite (E P'), (E P), Ht. }
    assert (Hr' : 0 <= squashfs_size_of (Z.of_nat (length P')) <= 0xFFFFFFFF)
      by now rewrite Hl.
    pose proof (cmd_build_accepted args w' P' HP' Hne Hlen' Hm' Hr') as Hb.
    assert (Hco' : match checksum_only args with Some v => v | None => false end = false)
      by (destruct (checksum_only args) as [[|]|]; congruence).
    rewrite Hco' in Hb. rewrite Hb. cbn [fst snd files].
    rewrite lookup_insert_eq, (build_image_depends P P') by assumption.
    split; reflexivity.
Qed.

Lemma build_size_field_witness :
  let w := example_world "rootfs.sqfs" (magic_then_zeros 1283) in
  exists out,
    files (cmd_build example_args w).2 !! "rootfs.bin" = Some out /\
    (12 <= length out)%nat /\
    be_int (slice out 8 12) = round_up_even (Z.of_nat 1283 - 640) /\
    forall (w' : world) (P' : list byte),
      files w' !! "rootfs.sqfs" = Some P' ->
      length P' = 1283%nat ->
      take 8 P' = take 8 (magic_then_zeros 1283) ->
      drop 12 P' = drop 12 (magic_then_zeros 1283) ->
      (cmd_build example_args w').1 = Ok tt /\
      files (cmd_build example_args w').2 !! "rootfs.bin" = Some out.
Proof.
  apply (build_size_field example_args
           (example_world "rootfs.sqfs" (magic_then_zeros 1283))
           (magic_then_zeros 1283)).
  - vm_compute. reflexivity.
  - vm_compute. discriminate.
  - vm_compute. discriminate.
  - vm_compute. reflexivity.
Defined.

(** ** C8: [cmd_sum] against [cmd_build] *)

(** C8.  When [cmd_build] accepts its input, [cmd_sum] on the same input
    returns normally and its output file holds exactly 2 bytes: the last 2
    bytes of the file that [cmd_build] writes. *)
Theorem sum_writes_checksum_word (args : Namespace) (w : world) (P : list byte) :
  files w !! squashfs_image args = Some P ->
  squashfs_image args <> rootfs_image args ->
  squashfs_image args <> checksum_file args ->
  checksum_only args <> Some true ->
  (cmd_build args w).1 = Ok tt ->
  exists out word,
    files (cmd_build args w).2 !! rootfs_image args = Some out /\
    (cmd_sum args w).1 = Ok tt /\
    files (cmd_sum args w).2 !! checksum_file args = Some word /\
    length word = 2%nat /\
    word = drop (length out - 2) out.
Proof.
  intros HP Hne Hne' Hco Hok.
  destruct (cmd_build_Ok_inv args w P HP Hok) as (Hlen & Hm & Hr).
  rewrite (cmd_build_image args w P HP Hne Hco Hok). cbn [snd files].
  rewrite cmd_sum_eq.
  rewrite (cmd_build_accepted (sum_args args) w P HP Hne' Hlen Hm Hr).
  cbn [fst snd files sum_args checksum_only rootfs_image checksum_file].
  exists (build_image P), (checksum_word P).
  rewrite !lookup_insert_eq. repeat split.
  unfold build_image. rewrite length_app.
  replace (length (build_payload P) + length (checksum_word P) - 2)%nat
    with (length (build_payload P)) by (cbn [checksum_word bytes_H length]; lia).
  now rewrite drop_app_length.
Qed.

Lemma sum_writes_checksum_word_witness :
  let w := example_world "rootfs.sqfs" (magic_then_zeros 1283) in
  exists out word,
    files (cmd_build example_args w).2 !! "rootfs.bin" = Some out /\
    (cmd_sum example_args w).1 = Ok tt /\
    files (cmd_sum example_args w).2 !! "rootfs.sum" = Some word /\
    length word = 2%nat /\
    word = drop (length out - 2) out.
Proof.
  apply (sum_writes_checksum_word example_args
           (example_world "rootfs.sqfs" (magic_then_zeros 1283))
           (magic_then_zeros 1283)).
  - vm_compute. reflexivity.
  - vm_compute. discriminate.
  - vm_compute. discriminate.
  - vm_compute. discriminate.
  - vm_compute. reflexivity.
Defined.

(** ** C10: the length of the built image *)

(** C10.  When [cmd_build] accepts its input, the output is as long as the
    input rounded up to even, plus 2; the part before the checksum word has
    even length; and for an input of odd length the output holds the zero
    pad byte right behind the copied input bytes. *)
Theorem build_output_length (args : Namespace) (w : world) (P : list byte) :
  files w !! squashfs_image args = Some P ->
  squashfs_image args <> rootfs_image args ->
  checksum_only args <> Some true ->
  (cmd_build args w).1 = Ok tt ->
  exists out,
    files (cmd_build args w).2 !! rootfs_image args = Some out /\
    Z.of_nat (length out) = round_up_even (Z.of_nat (length P)) + 2 /\
    Z.of_nat (length out - 2) mod 2 = 0 /\
    (Z.of_nat (length P) mod 2 <> 0 -> out !! length P = Some x00).
Proof.
  intros HP Hne Hco Hok.
  destruct (cmd_build_Ok_inv args w P HP Hok) as (Hlen & Hm & Hr).
  pose proof (squashfs_size_of_nonneg _ (proj1 Hr)) as H639.
  assert (H12 : (12 <= length P)%nat) by lia.
  rewrite (cmd_build_image args w P HP Hne Hco Hok). cbn [snd files].
  exists (build_image P). rewrite lookup_insert_eq.
  split; [reflexivity|]. split; [now apply length_build_image|]. split.
  - unfold build_image. rewrite length_app.
    replace (length (build_payload P) + length (checksum_word P) - 2)%nat
      with (length (build_payload P)) by (cbn [checksum_word bytes_H length]; lia).
    now apply build_payload_even.
  - intros Hodd. unfold build_image, build_payload.
    rewrite <- !app_assoc.
    rewrite lookup_app_r by (rewrite length_take; lia).
    rewrite length_take. replace (8 `min` length P)%nat with 8%nat by lia.
    rewrite lookup_app_r by (cbn [bytes_I length]; lia).
    cbn [bytes_I length].
    assert (Hd : length (drop 12 P) = (length P - 12)%nat) by apply length_drop.
    unfold pad_even. rewrite decide_True.
    + rewrite <- app_assoc.
      rewrite lookup_app_r by lia.
      replace (length P - 8 - 4 - length (drop 12 P))%nat with 0%nat by lia.
      reflexivity.
    + rewrite Hd.
      replace (Z.of_nat (length P - 12)) with (Z.of_nat (length P) + (-6) * 2) by lia.
      now rewrite Z.mod_add by lia.
Qed.

Lemma build_output_length_witness :
  let w := example_world "rootfs.sqfs" (magic_then_zeros 1283) in
  exists out,
    files (cmd_build example_args w).2 !! "rootfs.bin" = Some out /\
    Z.of_nat (length out) = round_up_even (Z.of_nat 1283) + 2 /\
    Z.of_nat (length out - 2) mod 2 = 0 /\
    (Z.of_nat 1283 mod 2 <> 0 -> out !! 1283%nat = Some x00).
Proof.
  apply (build_output_length example_args
           (example_world "rootfs.sqfs" (magic_then_zeros 1283))
           (magic_then_zeros 1283)).
  - vm_compute. reflexivity.
  - vm_compute. discriminate.
  - vm_compute. discriminate.
  - vm_compute. reflexivity.
Defined.

(** * Further properties of the script *)

(** ** [_checksum_buffer] *)

Lemma odd_length_mod (b : list byte) :
  Nat.Odd (length b) -> Z.of_nat (length b) mod 2 <> 0.
Proof.
  intros [m Hm]. rewrite Hm.
  replace (Z.of_nat (2 * m + 1)) with (1 + Z.of_nat m * 2) by lia.
  now rewrite Z.mod_add by lia.
Qed.

(** X1.  [_checksum_buffer] raises [struct.error] on every buffer of odd
    length, whatever the initial checksum: the last slice [b[i:i+2]] holds
    one byte.  The caller has to pad, as [cmd_build] does. *)
Theorem checksum_buffer_odd_raises (b : list byte) (checksum : Z) :
  Nat.Odd (length b) -> _checksum_buffer b checksum = Raise struct_error.
Proof. intros H. apply checksum_buffer_odd. now apply odd_length_mod. Qed.

Lemma checksum_buffer_odd_raises_witness :
  _checksum_buffer [x68; x73; x71] 7 = Raise struct_error.
Proof.
  apply (checksum_buffer_odd_raises [x68; x73; x71] 7). exists 1%nat. reflexivity.
Defined.

(** X2.  Summing in chunks: for a first chunk of even length, summing the
    concatenation is summing the first chunk and carrying the result into
    the sum of the second, also when the second raises. *)
Theorem checksum_buffer_chunks (a b : list byte) (checksum : Z) :
  Nat.Even (length a) ->
  _checksum_buffer (a ++ b) checksum =
  obind (_checksum_buffer a checksum) (fun c => _checksum_buffer b c).
Proof.
  intros He. apply Even_length_mod in He. revert checksum.
  induction a as [|x|hi lo rest IH] using list_pair_ind; intros checksum.
  - reflexivity.
  - discriminate He.
  - cbn [app]. rewrite !checksum_buffer_cons2. apply IH.
    eapply even_length_SS, He.
Qed.

Lemma checksum_buffer_chunks_witness :
  _checksum_buffer ([x68; x73] ++ [x71; x73]) 0 =
  obind (_checksum_buffer [x68; x73] 0) (fun c => _checksum_buffer [x71; x73] c).
Proof.
  apply (checksum_buffer_chunks [x68; x73] [x71; x73] 0). exists 1%nat. reflexivity.
Defined.

Lemma word_sum_from_plain (b : list byte) :
  forall checksum, 0 <= checksum < 65536 ->
  word_sum_from checksum b = (checksum + plain_sum b) mod 65536.
Proof.
  induction b as [|x|hi lo rest IH] using list_pair_ind; intros checksum Hc.
  - unfold plain_sum. cbn. rewrite Z.add_0_r. now rewrite Z.mod_small.
  - unfold plain_sum. cbn. rewrite Z.add_0_r. now rewrite Z.mod_small.
  - rewrite word_sum_from_cons2.
    rewrite IH by (apply Z.mod_pos_bound; lia).
    unfold plain_sum. cbn [be_words fold_right]. fold (plain_sum rest).
    rewrite be_int_2, Zplus_mod_idemp_l. f_equal. lia.
Qed.

(** X3.  Reducing after every addition is reducing once: on a buffer of
    even length and from an initial checksum below 65536,
    [_checksum_buffer] returns the initial checksum plus the sum of all the
    big-endian words, modulo 65536; the result is a 16-bit number. *)
Theorem checksum_buffer_plain_sum (b : list byte) (checksum : Z) :
  Nat.Even (length b) ->
  0 <= checksum < 65536 ->
  _checksum_buffer b checksum = Ok ((checksum + plain_sum b) mod 65536) /\
  0 <= (checksum + plain_sum b) mod 65536 <= 0xFFFF.
Proof.
  intros He Hc. apply Even_length_mod in He. split.
  - rewrite checksum_buffer_even by assumption. f_equal.
    now apply word_sum_from_plain.
  - pose proof (Z.mod_pos_bound (checksum + plain_sum b) 65536 ltac:(lia)). lia.
Qed.

Lemma checksum_buffer_plain_sum_witness :
  _checksum_buffer [xff; xff; x00; x02] 1 =
    Ok ((1 + plain_sum [xff; xff; x00; x02]) mod 65536) /\
  0 <= (1 + plain_sum [xff; xff; x00; x02]) mod 65536 <= 0xFFFF.
Proof.
  apply (checksum_buffer_plain_sum [xff; xff; x00; x02] 1).
  - exists 2%nat. reflexivity.
  - lia.
Defined.

(** ** [cmd_check] *)

(** The four ways [cmd_check] ends on a file that exists. *)
Lemma cmd_check_cases (args : Namespace) (w : world) (X : list byte) :
  files w !! rootfs_flash_image args = Some X ->
  ((length X < 22)%nat /\
   cmd_check args w = (Raise struct_error, set_cursor (length X) w)) \/
  ((22 <= length X)%nat /\ magic_of X <> SQUASHFS_MAGIC_BE /\
   cmd_check args w =
   (Raise (RuntimeError "Doesn't appear to be a SquashFS."), set_cursor 22 w)) \/
  ((22 <= length X)%nat /\ magic_of X = SQUASHFS_MAGIC_BE /\
   rtl_size_of X > Z.of_nat (length X) /\
   cmd_check args w =
   (Raise (RuntimeError "Not an RTL Squash filesystem"), set_cursor 22 w)) \/
  ((22 <= length X)%nat /\ magic_of X = SQUASHFS_MAGIC_BE /\
   rtl_size_of X <= Z.of_nat (length X) /\
   cmd_check args w =
   (Ok tt,
    {| files := files w;
       cursor := 2 * Z.to_nat (rtl_size_of X / 2);
       stdout := stdout w ++
         [if decide (word_sum (take (2 * Z.to_nat (rtl_size_of X / 2)) X) <> 0)
          then "Checksum failed" else "Checksum passed"] |})).
Proof.
  intros HX.
  destruct (decide (length X < 22)%nat) as [Hs|Hl].
  { left. split; [assumption|]. now apply (cmd_check_short args w X). }
  assert (Hlen : (22 <= length X)%nat) by lia.
  destruct (decide (magic_of X = SQUASHFS_MAGIC_BE)) as [Hm|Hm].
  - destruct (decide (rtl_size_of X > Z.of_nat (length X))) as [Hb|Hb].
    + right. right. left.
      split; [assumption|]. split; [assumption|]. split; [assumption|].
      now apply (cmd_check_bound args w X).
    + right. right. right.
      split; [assumption|]. split; [assumption|]. split; [lia|].
      apply (cmd_check_accepted args w X); [assumption|assumption|lia].
  - right. left. split; [assumption|]. split; [assumption|].
    now apply (cmd_check_bad_magic args w X).
Qed.

(** X4.  The outcome of [cmd_check] on an existing file: [struct.error] on
    a file of fewer than 22 bytes, the magic error on a wrong magic, the
    bound error when [size_field + 642] exceeds the file size, and a normal
    return otherwise; the summing loop never reads past the end of the
    file.  No file is changed, and nothing is printed when an exception is
    raised. *)
Theorem cmd_check_outcome (args : Namespace) (w : world) (X : list byte) :
  files w !! rootfs_flash_image args = Some X ->
  (cmd_check args w).1 =
    (if decide (length X < 22)%nat then Raise struct_error
     else if decide (magic_of X <> SQUASHFS_MAGIC_BE)
     then Raise (RuntimeError "Doesn't appear to be a SquashFS.")
     else if decide (size_field_of X + 642 > Z.of_nat (length X))
     then Raise (RuntimeError "Not an RTL Squash filesystem")
     else Ok tt) /\
  files (cmd_check args w).2 = files w /\
  ((cmd_check args w).1 <> Ok tt -> stdout (cmd_check args w).2 = stdout w).
Proof.
  intros HX.
  assert (Hr : rtl_size_of X = size_field_of X + 642)
    by (unfold rtl_size_of, SIZE_OF_SQFS_SUPER_BLOCK; lia).
  destruct (cmd_check_cases args w X HX)
    as [(Hs & ->)|[(Hl & Hm & ->)|[(Hl & Hm & Hb & ->)|(Hl & Hm & Hb & ->)]]];
    cbn [fst snd files stdout set_cursor].
  - rewrite decide_True by assumption. auto.
  - rewrite decide_False, decide_True by (assumption || lia). auto.
  - rewrite decide_False by lia.
    rewrite decide_False by (intros H; now apply H).
    rewrite decide_True by lia. auto.
  - rewrite decide_False by lia.
    rewrite decide_False by (intros H; now apply H).
    rewrite decide_False by lia. repeat split. intros H. now contradiction H.
Qed.

Lemma cmd_check_outcome_witness :
  let X := magic_then_zeros 22 in
  let w := example_world "rootfs.bin" X in
  (cmd_check example_args w).1 =
    (if decide (length X < 22)%nat then Raise struct_error
     else if decide (magic_of X <> SQUASHFS_MAGIC_BE)
     then Raise (RuntimeError "Doesn't appear to be a SquashFS.")
     else if decide (size_field_of X + 642 > Z.of_nat (length X))
     then Raise (RuntimeError "Not an RTL Squash filesystem")
     else Ok tt) /\
  files (cmd_check example_args w).2 = files w /\
  ((cmd_check example_args w).1 <> Ok tt ->
   stdout (cmd_check example_args w).2 = stdout w).
Proof.
  apply (cmd_check_outcome example_args
           (example_world "rootfs.bin" (magic_then_zeros 22))
           (magic_then_zeros 22)).
  vm_compute. reflexivity.
Defined.

(** [cmd_check] looks at the files only: two worlds with the same files
    give the same outcome and the same printed lines. *)
Lemma cmd_check_frame (args : Namespace) (w1 w2 : world) :
  files w1 = files w2 ->
  exists lines,
    (cmd_check args w2).1 = (cmd_check args w1).1 /\
    files (cmd_check args w1).2 = files w1 /\
    stdout (cmd_check args w1).2 = stdout w1 ++ lines /\
    stdout (cmd_check args w2).2 = stdout w2 ++ lines.
Proof.
  intros Hf.
  destruct (files w1 !! rootfs_flash_image args) as [X|] eqn:HX.
  - assert (HX2 : files w2 !! rootfs_flash_image args = Some X) by now rewrite <- Hf.
    destruct (cmd_check_cases args w1 X HX)
      as [(Hs & E1)|[(Hl & Hm & E1)|[(Hl & Hm & Hb & E1)|(Hl & Hm & Hb & E1)]]];
    destruct (cmd_check_cases args w2 X HX2)
      as [(Hs' & E2)|[(Hl' & Hm' & E2)|[(Hl' & Hm' & Hb' & E2)|(Hl' & Hm' & Hb' & E2)]]];
    try lia; try congruence; rewrite E1, E2; cbn [fst snd files stdout set_cursor];
    try (exists []; rewrite !app_nil_r; auto; fail).
    eexists. repeat split.
  - assert (HX2 : files w2 !! rootfs_flash_image args = None) by now rewrite <- Hf.
    exists []. unfold cmd_check, bind, getsize. rewrite HX, HX2.
    cbn [fst snd]. rewrite !app_nil_r. auto.
Qed.

(** X5.  Running [cmd_check] a second time gives the same outcome and
    prints the same lines again; the files are as before. *)
Theorem cmd_check_twice (args : Namespace) (w : world) :
  exists lines,
    (cmd_check args (cmd_check args w).2).1 = (cmd_check args w).1 /\
    stdout (cmd_check args w).2 = stdout w ++ lines /\
    stdout (cmd_check args (cmd_check args w).2).2 = stdout w ++ lines ++ lines /\
    files (cmd_check args (cmd_check args w).2).2 = files w.
Proof.
  destruct (cmd_check_frame args w w eq_refl) as (l0 & _ & Hf0 & _ & _).
  destruct (cmd_check_frame args w (cmd_check args w).2 (eq_sym Hf0))
    as (lines & Ho & Hf & Hs1 & Hs2).
  destruct (cmd_check_frame args (cmd_check args w).2 (cmd_check args w).2 eq_refl)
    as (l1 & _ & Hf1 & _ & _).
  exists lines. repeat split; try assumption.
  - rewrite Hs2, Hs1. now rewrite <- app_assoc.
  - now rewrite Hf1.
Qed.

Lemma cmd_check_Ok_inv (args : Namespace) (w : world) (X : list byte) :
  files w !! rootfs_flash_image args = Some X ->
  (cmd_check args w).1 = Ok tt ->
  (22 <= length X)%nat /\ magic_of X = SQUASHFS_MAGIC_BE /\
  rtl_size_of X <= Z.of_nat (length X).
Proof.
  intros HX Hok.
  destruct (cmd_check_cases args w X HX)
    as [(Hs & E)|[(Hl & Hm & E)|[(Hl & Hm & Hb & E)|(Hl & Hm & Hb & E)]]];
    rewrite E in Hok; try discriminate Hok.
  auto.
Qed.

Lemma magic_of_app (X T : list byte) :
  (4 <= length X)%nat -> magic_of (X ++ T) = magic_of X.
Proof. intros H. unfold magic_of. now rewrite take_app_le by lia. Qed.

Lemma size_field_of_app (X T : list byte) :
  (12 <= length X)%nat -> size_field_of (X ++ T) = size_field_of X.
Proof.
  intros H. unfold size_field_of, slice.
  rewrite drop_app_le by lia.
  now rewrite take_app_le by (rewrite length_drop; lia).
Qed.

Lemma rtl_size_of_app (X T : list byte) :
  (12 <= length X)%nat -> rtl_size_of (X ++ T) = rtl_size_of X.
Proof. intros H. unfold rtl_size_of. now rewrite size_field_of_app. Qed.

(** The world [w] with the file at [path] replaced. *)
Lemma lookup_replaced (w : world) (path : string) (X : list byte) :
  files (set_files (<[path := X]> (files w)) w) !! path = Some X.
Proof. unfold set_files. cbn [files]. apply lookup_insert_eq. Qed.

(** X6.  Bytes behind the protected region are not looked at: when
    [cmd_check] accepts a file, it accepts the file with any bytes appended
    and prints the same verdict. *)
Theorem cmd_check_ignores_trailing_bytes
    (args : Namespace) (w : world) (X T : list byte) :
  files w !! rootfs_flash_image args = Some X ->
  (cmd_check args w).1 = Ok tt ->
  let w' := set_files (<[rootfs_flash_image args := X ++ T]> (files w)) w in
  (cmd_check args w').1 = Ok tt /\
  stdout (cmd_check args w').2 = stdout (cmd_check args w).2.
Proof.
  intros HX Hok w'.
  destruct (cmd_check_Ok_inv args w X HX Hok) as (Hlen & Hm & Hb).
  assert (HX' : files w' !! rootfs_flash_image args = Some (X ++ T))
    by apply lookup_replaced.
  assert (Hm' : magic_of (X ++ T) = SQUASHFS_MAGIC_BE)
    by (rewrite magic_of_app by lia; assumption).
  assert (Hr' : rtl_size_of (X ++ T) = rtl_size_of X)
    by (apply rtl_size_of_app; lia).
  assert (Hb' : rtl_size_of (X ++ T) <= Z.of_nat (length (X ++ T)))
    by (rewrite Hr', length_app; lia).
  rewrite (cmd_check_accepted args w' (X ++ T) HX' Hm' Hb').
  rewrite (cmd_check_accepted args w X HX Hm Hb).
  cbn [fst snd stdout]. split; [reflexivity|].
  rewrite Hr'. rewrite take_app_le; [reflexivity|].
  pose proof (Z.div_mod (rtl_size_of X) 2 ltac:(lia)).
  pose proof (Z.mod_pos_bound (rtl_size_of X) 2 ltac:(lia)).
  assert (0 <= size_field_of X) by apply be_int_nonneg.
  unfold rtl_size_of, SIZE_OF_SQFS_SUPER_BLOCK in *. lia.
Qed.

Lemma cmd_check_ignores_trailing_bytes_witness :
  let w := example_world "rootfs.bin" vendor_642 in
  let w' := set_files (<["rootfs.bin" := vendor_642 ++ [xff; xff; xff]]> (files w)) w in
  (cmd_check example_args w').1 = Ok tt /\
  stdout (cmd_check example_args w').2 = stdout (cmd_check example_args w).2.
Proof.
  apply (cmd_check_ignores_trailing_bytes example_args
           (example_world "rootfs.bin" vendor_642) vendor_642 [xff; xff; xff]).
  - vm_compute. reflexivity.
  - vm_compute. reflexivity.
Defined.

Lemma byte_val_inj (x y : byte) : byte_val x = byte_val y -> x = y.
Proof.
  unfold byte_val. intros H. apply N2Z.inj in H.
  pose proof (Byte.of_to_N x) as Hx. rewrite H, Byte.of_to_N in Hx.
  congruence.
Qed.

Lemma be_int_2_inj (h l h' l' : byte) :
  be_int [h; l] = be_int [h'; l'] -> h = h' /\ l = l'.
Proof.
  rewrite !be_int_2. intros H.
  pose proof (byte_val_range h). pose proof (byte_val_range l).
  pose proof (byte_val_range h'). pose proof (byte_val_range l').
  split; apply byte_val_inj; lia.
Qed.

(** The word sum of a buffer around one of its words. *)
Lemma word_sum_around_word (a t : list byte) (h l : byte) :
  Z.of_nat (length a) mod 2 = 0 ->
  word_sum (a ++ h :: l :: t) =
  (word_sum a + be_int [h; l] + plain_sum t) mod 65536.
Proof.
  intros He. unfold word_sum.
  rewrite word_sum_from_app by assumption.
  rewrite word_sum_from_cons2.
  rewrite word_sum_from_plain by (apply Z.mod_pos_bound; lia).
  now rewrite Zplus_mod_idemp_l.
Qed.

(** Changing one word of a buffer whose word sum is 0 makes it non-zero. *)
Lemma word_sum_changed_word (a t : list byte) (h l h' l' : byte) :
  Z.of_nat (length a) mod 2 = 0 ->
  (h, l) <> (h', l') ->
  word_sum (a ++ h :: l :: t) = 0 ->
  word_sum (a ++ h' :: l' :: t) <> 0.
Proof.
  intros He Hne H0 H0'.
  rewrite word_sum_around_word in H0, H0' by assumption.
  apply Hne.
  destruct (be_int_2_inj h l h' l') as [-> ->]; [|reflexivity].
  pose proof (Z.div_mod (word_sum a + be_int [h; l] + plain_sum t) 65536 ltac:(lia)).
  pose proof (Z.div_mod (word_sum a + be_int [h'; l'] + plain_sum t) 65536 ltac:(lia)).
  rewrite !be_int_2 in *.
  pose proof (byte_val_range h). pose proof (byte_val_range l).
  pose proof (byte_val_range h'). pose proof (byte_val_range l').
  lia.
Qed.

Lemma take_around_word (a b : list byte) (h l : byte) (n : nat) :
  (length a + 2 <= n)%nat ->
  take n (a ++ h :: l :: b) = a ++ h :: l :: take (n - length a - 2) b.
Proof.
  intros H. rewrite take_app_ge by lia. f_equal.
  destruct (n - length a)%nat as [|[|m]] eqn:E; try lia.
  replace (S (S m) - 2)%nat with m by lia. reflexivity.
Qed.

(** X7.  A changed word is detected.  Take an image on which [cmd_check]
    prints "Checksum passed" and replace one 16-bit word of its protected
    region, at an even offset of at least 12 (behind the magic and the size
    field), by a different word: [cmd_check] still accepts the file and
    prints "Checksum failed". *)
Theorem cmd_check_detects_changed_word
    (args : Namespace) (w : world) (a b : list byte) (h l h' l' : byte) :
  files w !! rootfs_flash_image args = Some (a ++ h :: l :: b) ->
  (12 <= length a)%nat ->
  Nat.Even (length a) ->
  Z.of_nat (length a) + 2 <= rtl_size_of (a ++ h :: l :: b) ->
  (h, l) <> (h', l') ->
  (cmd_check args w).1 = Ok tt ->
  stdout (cmd_check args w).2 = stdout w ++ ["Checksum passed"] ->
  let w' := set_files (<[rootfs_flash_image args := a ++ h' :: l' :: b]> (files w)) w in
  (cmd_check args w').1 = Ok tt /\
  stdout (cmd_check args w').2 = stdout w ++ ["Checksum failed"].
Proof.
  intros HX Ha He Hin Hne Hok Hpass w'.
  apply Even_length_mod in He.
  destruct (cmd_check_Ok_inv args w _ HX Hok) as (Hlen & Hm & Hb).
  assert (HX' : files w' !! rootfs_flash_image args = Some (a ++ h' :: l' :: b))
    by apply lookup_replaced.
  assert (Hr' : rtl_size_of (a ++ h' :: l' :: b) = rtl_size_of (a ++ h :: l :: b))
    by (rewrite !rtl_size_of_app by lia; reflexivity).
  assert (Hm' : magic_of (a ++ h' :: l' :: b) = SQUASHFS_MAGIC_BE)
    by (rewrite magic_of_app in * by lia; assumption).
  assert (Hl' : length (a ++ h' :: l' :: b) = length (a ++ h :: l :: b))
    by (rewrite !length_app; reflexivity).
  assert (Hb' : rtl_size_of (a ++ h' :: l' :: b) <= Z.of_nat (length (a ++ h' :: l' :: b)))
    by (rewrite Hr', Hl'; assumption).
  rewrite (cmd_check_accepted args w _ HX Hm Hb) in Hpass.
  rewrite (cmd_check_accepted args w' _ HX' Hm' Hb').
  cbn [fst snd stdout] in *. split; [reflexivity|].
  rewrite Hr'. set (n := (2 * Z.to_nat (rtl_size_of (a ++ h :: l :: b) / 2))%nat) in *.
  assert (Hn : (length a + 2 <= n)%nat).
  { subst n.
    pose proof (Z.div_mod (rtl_size_of (a ++ h :: l :: b)) 2 ltac:(lia)).
    pose proof (Z.mod_pos_bound (rtl_size_of (a ++ h :: l :: b)) 2 ltac:(lia)).
    pose proof (Z.div_mod (Z.of_nat (length a)) 2 ltac:(lia)).
    lia. }
  rewrite take_around_word in * by assumption.
  apply app_inv_head in Hpass.
  destruct (decide (word_sum (a ++ h :: l :: take (n - length a - 2) b) <> 0))
    as [Hnz|Hz]; [discriminate Hpass|].
  rewrite decide_True; [reflexivity|].
  apply (word_sum_changed_word a _ h l h' l'); try assumption.
  destruct (decide (word_sum (a ++ h :: l :: take (n - length a - 2) b) = 0));
    [assumption|contradiction].
Qed.

Lemma cmd_check_detects_changed_word_witness :
  let a := take 12 vendor_642 in
  let b := drop 14 vendor_642 in
  let w := example_world "rootfs.bin" (a ++ x00 :: x00 :: b) in
  let w' := set_files (<["rootfs.bin" := a ++ x00 :: x01 :: b]> (files w)) w in
  (cmd_check example_args w').1 = Ok tt /\
  stdout (cmd_check example_args w').2 = stdout w ++ ["Checksum failed"].
Proof.
  apply (cmd_check_detects_changed_word example_args
           (example_world "rootfs.bin"
              (take 12 vendor_642 ++ x00 :: x00 :: drop 14 vendor_642))
           (take 12 vendor_642) (drop 14 vendor_642) x00 x00 x00 x01).
  - vm_compute. reflexivity.
  - vm_compute. lia.
  - exists 6%nat. vm_compute. reflexivity.
  - vm_compute. discriminate.
  - intros H. discriminate H.
  - vm_compute. reflexivity.
  - vm_compute. reflexivity.
Defined.

(** ** [cmd_extract] *)

(** X8.  [cmd_extract] reports what [cmd_check] reports: on the same
    existing file, with the output at another path, both end with the same
    outcome (a normal return or the same exception) and print the same
    lines; the input file is left as it was. *)
Theorem cmd_extract_reports_as_check (args : Namespace) (w : world) (X : list byte) :
  files w !! rootfs_flash_image args = Some X ->
  rootfs_flash_image args <> squashfs_out args ->
  (cmd_extract args w).1 = (cmd_check args w).1 /\
  stdout (cmd_extract args w).2 = stdout (cmd_check args w).2 /\
  files (cmd_extract args w).2 !! rootfs_flash_image args = Some X.
Proof.
  intros HX Hne.
  destruct (cmd_check_cases args w X HX)
    as [(Hs & ->)|[(Hl & Hm & ->)|[(Hl & Hm & Hb & ->)|(Hl & Hm & Hb & ->)]]].
  - rewrite (cmd_extract_short args w X HX Hne Hs). cbn [fst snd stdout files].
    now rewrite lookup_insert_ne by auto.
  - rewrite (cmd_extract_bad_magic args w X HX Hne Hl Hm).
    cbn [fst snd stdout files extract_header_written].
    now rewrite lookup_insert_ne by auto.
  - rewrite (cmd_extract_bound args w X HX Hne Hl Hm Hb).
    cbn [fst snd stdout files extract_header_written].
    now rewrite lookup_insert_ne by auto.
  - rewrite (cmd_extract_accepted args w X HX Hne Hm Hb).
    cbn [fst snd stdout files].
    now rewrite lookup_insert_ne by auto.
Qed.

Lemma cmd_extract_reports_as_check_witness :
  let w := example_world "rootfs.bin" vendor_642 in
  (cmd_extract example_args w).1 = (cmd_check example_args w).1 /\
  stdout (cmd_extract example_args w).2 = stdout (cmd_check example_args w).2 /\
  files (cmd_extract example_args w).2 !! "rootfs.bin" = Some vendor_642.
Proof.
  apply (cmd_extract_reports_as_check example_args
           (example_world "rootfs.bin" vendor_642) vendor_642).
  - vm_compute. reflexivity.
  - vm_compute. discriminate.
Defined.

(** X9.  When the file is longer than its protected region, no read ends
    at the end of the file, and [cmd_extract] copies every word it sums,
    the checksum word included: the output is the 22-byte header followed
    by the first [2 * (protected_size // 2)] bytes of the file.  The bytes
    behind the protected region are not copied. *)
Theorem cmd_extract_longer_file (args : Namespace) (w : world) (X : list byte) :
  files w !! rootfs_flash_image args = Some X ->
  rootfs_flash_image args <> squashfs_out args ->
  magic_of X = SQUASHFS_MAGIC_BE ->
  rtl_size_of X < Z.of_nat (length X) ->
  (cmd_extract args w).1 = Ok tt /\
  files (cmd_extract args w).2 !! squashfs_out args =
    Some (take 22 X ++ take (2 * Z.to_nat (rtl_size_of X / 2)) X) /\
  Z.of_nat (length (take 22 X ++ take (2 * Z.to_nat (rtl_size_of X / 2)) X)) =
    22 + 2 * (rtl_size_of X / 2).
Proof.
  intros HX Hne Hm Hlt.
  assert (Hsz : 0 <= size_field_of X) by apply be_int_nonneg.
  assert (Hr : rtl_size_of X = size_field_of X + 642)
    by (unfold rtl_size_of, SIZE_OF_SQFS_SUPER_BLOCK; lia).
  pose proof (Z.div_mod (rtl_size_of X) 2 ltac:(lia)) as Hdm.
  pose proof (Z.mod_pos_bound (rtl_size_of X) 2 ltac:(lia)) as Hmb.
  pose proof (cmd_extract_accepted args w X HX Hne Hm ltac:(lia)) as Hacc.
  cbv zeta in Hacc. rewrite decide_False in Hacc by lia.
  rewrite Nat.sub_0_r in Hacc. rewrite Hacc. cbn [fst snd files].
  rewrite lookup_insert_eq. repeat split.
  rewrite length_app, !length_take. lia.
Qed.

Lemma cmd_extract_longer_file_witness :
  let X := vendor_642 ++ [xff; xff] in
  let w := example_world "rootfs.bin" X in
  (cmd_extract example_args w).1 = Ok tt /\
  files (cmd_extract example_args w).2 !! "extracted.sqfs" =
    Some (take 22 X ++ take (2 * Z.to_nat (rtl_size_of X / 2)) X) /\
  Z.of_nat (length (take 22 X ++ take (2 * Z.to_nat (rtl_size_of X / 2)) X)) =
    22 + 2 * (rtl_size_of X / 2).
Proof.
  apply (cmd_extract_longer_file example_args
           (example_world "rootfs.bin" (vendor_642 ++ [xff; xff]))
           (vendor_642 ++ [xff; xff])).
  - vm_compute. reflexivity.
  - vm_compute. discriminate.
  - vm_compute. reflexivity.
  - vm_compute. reflexivity.
Defined.

(** ** [cmd_build] and [cmd_sum] *)

Lemma squashfs_size_of_range (len : Z) :
  0 <= squashfs_size_of len <= 0xFFFFFFFF <-> 639 <= len <= 4294967934.
Proof.
  unfold squashfs_size_of, SIZE_OF_SQFS_SUPER_BLOCK. rewrite round_up_even_eq.
  pose proof (Z.mod_pos_bound (len - 640) 2 ltac:(lia)).
  pose proof (Z.div_mod (len - 640) 2 ltac:(lia)).
  lia.
Qed.

(** The four ways [cmd_build] ends on a file that exists; the mode
    ([checksum_only]) plays no part in which. *)
Lemma cmd_build_cases (args : Namespace) (w : world) (P : list byte) :
  files w !! squashfs_image args = Some P ->
  squashfs_image args <> rootfs_image args ->
  ((length P < 8)%nat /\
   cmd_build args w = (Raise struct_error, set_cursor (length P) w)) \/
  ((8 <= length P)%nat /\ magic_of P <> SQUASHFS_MAGIC_BE /\
   cmd_build args w =
   (Raise (RuntimeError "Doesn't appear to be a SquashFS."), set_cursor 8 w)) \/
  ((8 <= length P)%nat /\ magic_of P = SQUASHFS_MAGIC_BE /\
   ~ 639 <= Z.of_nat (length P) <= 4294967934 /\
   cmd_build args w =
   (Raise struct_error, set_cursor (Nat.min 12 (length P)) w)) \/
  ((8 <= length P)%nat /\ magic_of P = SQUASHFS_MAGIC_BE /\
   639 <= Z.of_nat (length P) <= 4294967934 /\
   cmd_build args w =
   (Ok tt,
    {| files := <[rootfs_image args :=
                   if match checksum_only args with Some v => v | None => false end
                   then checksum_word P else build_image P]> (files w);
       cursor := length P; stdout := stdout w |})).
Proof.
  intros HP Hne.
  destruct (decide (length P < 8)%nat) as [Hs|Hl].
  { left. split; [assumption|]. now apply (cmd_build_short args w P). }
  assert (Hlen : (8 <= length P)%nat) by lia.
  destruct (decide (magic_of P = SQUASHFS_MAGIC_BE)) as [Hm|Hm].
  - destruct (decide (639 <= Z.of_nat (length P) <= 4294967934)) as [Hr|Hr].
    + right. right. right.
      split; [assumption|]. split; [assumption|]. split; [assumption|].
      apply (cmd_build_accepted args w P); try assumption.
      now apply squashfs_size_of_range.
    + right. right. left.
      split; [assumption|]. split; [assumption|]. split; [assumption|].
      apply (cmd_build_size_out_of_range args w P); try assumption.
      now rewrite squashfs_size_of_range.
  - right. left. split; [assumption|]. split; [assumption|].
    now apply (cmd_build_bad_magic args w P).
Qed.

(** X10.  The outcome of [cmd_build] on an existing input, with the output
    at another path: [struct.error] on fewer than 8 bytes, the magic error
    on a wrong magic, [struct.error] again when the length is below 639 or
    above 4294967934 (the size field does not pack), and a normal return
    otherwise.  Nothing is printed, and when an exception is raised no file
    has been created or changed. *)
Theorem cmd_build_outcome (args : Namespace) (w : world) (P : list byte) :
  files w !! squashfs_image args = Some P ->
  squashfs_image args <> rootfs_image args ->
  (cmd_build args w).1 =
    (if decide (length P < 8)%nat then Raise struct_error
     else if decide (magic_of P <> SQUASHFS_MAGIC_BE)
     then Raise (RuntimeError "Doesn't appear to be a SquashFS.")
     else if decide (639 <= Z.of_nat (length P) <= 4294967934) then Ok tt
     else Raise struct_error) /\
  stdout (cmd_build args w).2 = stdout w /\
  ((cmd_build args w).1 <> Ok tt -> files (cmd_build args w).2 = files w).
Proof.
  intros HP Hne.
  destruct (cmd_build_cases args w P HP Hne)
    as [(Hs & ->)|[(Hl & Hm & ->)|[(Hl & Hm & Hr & ->)|(Hl & Hm & Hr & ->)]]];
    cbn [fst snd files stdout set_cursor].
  - rewrite decide_True by assumption. auto.
  - rewrite decide_False, decide_True by (assumption || lia). auto.
  - rewrite decide_False by lia.
    rewrite decide_False by (intros H; now apply H).
    rewrite decide_False by assumption. auto.
  - rewrite decide_False by lia.
    rewrite decide_False by (intros H; now apply H).
    rewrite decide_True by assumption. repeat split.
    intros H. now contradiction H.
Qed.

Lemma cmd_build_outcome_witness :
  let P := magic_then_zeros 638 in
  let w := example_world "rootfs.sqfs" P in
  (cmd_build example_args w).1 =
    (if decide (length P < 8)%nat then Raise struct_error
     else if decide (magic_of P <> SQUASHFS_MAGIC_BE)
     then Raise (RuntimeError "Doesn't appear to be a SquashFS.")
     else if decide (639 <= Z.of_nat (length P) <= 4294967934) then Ok tt
     else Raise struct_error) /\
  stdout (cmd_build example_args w).2 = stdout w /\
  ((cmd_build example_args w).1 <> Ok tt ->
   files (cmd_build example_args w).2 = files w).
Proof.
  apply (cmd_build_outcome example_args
           (example_world "rootfs.sqfs" (magic_then_zeros 638))
           (magic_then_zeros 638)).
  - vm_compute. reflexivity.
  - vm_compute. discriminate.
Defined.

Lemma take_pad_even (D : list byte) : take (length D) (pad_even D) = D.
Proof.
  unfold pad_even. destruct (decide (Z.of_nat (length D) mod 2 <> 0)).
  - now rewrite take_app_length.
  - now rewrite firstn_all.
Qed.

(** X11.  [cmd_build] copies its input: when it returns normally (not in
    checksum-only mode, output at another path), the first 8 bytes of the
    output are the first 8 bytes of the input, and the bytes of the output
    from offset 12 up to the input length are the bytes of the input from
    offset 12; only the size field at offsets 8 to 11 is replaced.  The
    input file and every file but the output are as before. *)
Theorem cmd_build_copies_input (args : Namespace) (w : world) (P : list byte) :
  files w !! squashfs_image args = Some P ->
  squashfs_image args <> rootfs_image args ->
  checksum_only args <> Some true ->
  (cmd_build args w).1 = Ok tt ->
  exists out,
    files (cmd_build args w).2 !! rootfs_image args = Some out /\
    take 8 out = take 8 P /\
    drop 12 (take (length P) out) = drop 12 P /\
    forall path, path <> rootfs_image args ->
      files (cmd_build args w).2 !! path = files w !! path.
Proof.
  intros HP Hne Hco Hok.
  destruct (cmd_build_Ok_inv args w P HP Hok) as (Hlen & Hm & Hr).
  pose proof (squashfs_size_of_nonneg _ (proj1 Hr)) as H639.
  rewrite (cmd_build_image args w P HP Hne Hco Hok). cbn [snd files].
  exists (build_image P). rewrite lookup_insert_eq.
  split; [reflexivity|].
  assert (Ht8 : length (take 8 P) = 8%nat) by (rewrite length_take; lia).
  unfold build_image, build_payload. rewrite <- !app_assoc.
  split; [|split].
  - rewrite take_app_le by lia. rewrite take_take. f_equal.
  - rewrite take_app_ge by lia. rewrite Ht8.
    rewrite take_app_ge by (cbn [bytes_I length]; lia).
    cbn [bytes_I length].
    replace (length P - 8 - 4)%nat with (length (drop 12 P))
      by (rewrite length_drop; lia).
    rewrite take_app_le
      by (pose proof (pad_even_length (drop 12 P)) as Hp;
          rewrite round_up_even_eq in Hp;
          pose proof (Z.mod_pos_bound (Z.of_nat (length (drop 12 P))) 2 ltac:(lia));
          lia).
    rewrite take_pad_even.
    rewrite app_assoc. rewrite drop_app_length'; [reflexivity|].
    rewrite length_app, Ht8. reflexivity.
  - intros path Hp. now rewrite lookup_insert_ne by auto.
Qed.

Lemma cmd_build_copies_input_witness :
  let P := magic_then_zeros 1283 in
  let w := example_world "rootfs.sqfs" P in
  exists out,
    files (cmd_build example_args w).2 !! "rootfs.bin" = Some out /\
    take 8 out = take 8 P /\
    drop 12 (take (length P) out) = drop 12 P /\
    forall path, path <> "rootfs.bin" ->
      files (cmd_build example_args w).2 !! path = files w !! path.
Proof.
  apply (cmd_build_copies_input example_args
           (example_world "rootfs.sqfs" (magic_then_zeros 1283))
           (magic_then_zeros 1283)).
  - vm_compute. reflexivity.
  - vm_compute. discriminate.
  - vm_compute. discriminate.
  - vm_compute. reflexivity.
Defined.

(** X12.  [cmd_sum] ends as [cmd_build] does: on the same existing input,
    with the input at another path than either output, both return
    normally or raise the same exception.  [cmd_sum] changes no file but
    [checksum_file]; in particular it does not create the image. *)
Theorem cmd_sum_outcome (args : Namespace) (w : world) (P : list byte) :
  files w !! squashfs_image args = Some P ->
  squashfs_image args <> rootfs_image args ->
  squashfs_image args <> checksum_file args ->
  (cmd_sum args w).1 = (cmd_build args w).1 /\
  forall path, path <> checksum_file args ->
    files (cmd_sum args w).2 !! path = files w !! path.
Proof.
  intros HP Hne Hne'. rewrite cmd_sum_eq.
  destruct (cmd_build_cases args w P HP Hne)
    as [(Hs & ->)|[(Hl & Hm & ->)|[(Hl & Hm & Hr & ->)|(Hl & Hm & Hr & ->)]]];
  destruct (cmd_build_cases (sum_args args) w P HP Hne')
    as [(Hs' & ->)|[(Hl' & Hm' & ->)|[(Hl' & Hm' & Hr' & ->)|(Hl' & Hm' & Hr' & ->)]]];
  try lia; try congruence; cbn [fst snd files set_cursor sum_args rootfs_image];
  (split; [reflexivity|]); intros path Hp; try reflexivity.
  now rewrite lookup_insert_ne by auto.
Qed.

Lemma cmd_sum_outcome_witness :
  let w := example_world "rootfs.sqfs" (magic_then_zeros 12) in
  (cmd_sum example_args w).1 = (cmd_build example_args w).1 /\
  forall path, path <> "rootfs.sum" ->
    files (cmd_sum example_args w).2 !! path = files w !! path.
Proof.
  apply (cmd_sum_outcome example_args
           (example_world "rootfs.sqfs" (magic_then_zeros 12))
           (magic_then_zeros 12)).
  - vm_compute. reflexivity.
  - vm_compute. discriminate.
  - vm_compute. discriminate.
Defined.

(** ** More on [cmd_extract] and [cmd_check] *)

(** X13.  When the protected region is the whole file and of even length,
    the last read of [cmd_extract] ends at the end of the file and that
    word alone is not copied: the output is the 22-byte header followed by
    the file without its last 2 bytes, [protected_size + 20] bytes in
    all. *)
Theorem cmd_extract_whole_file (args : Namespace) (w : world) (X : list byte) :
  files w !! rootfs_flash_image args = Some X ->
  rootfs_flash_image args <> squashfs_out args ->
  magic_of X = SQUASHFS_MAGIC_BE ->
  rtl_size_of X = Z.of_nat (length X) ->
  Nat.Even (length X) ->
  (cmd_extract args w).1 = Ok tt /\
  files (cmd_extract args w).2 !! squashfs_out args =
    Some (take 22 X ++ take (length X - 2) X) /\
  Z.of_nat (length (take 22 X ++ take (length X - 2) X)) = rtl_size_of X + 20.
Proof.
  intros HX Hne Hm Hr He. apply Even_length_mod in He.
  assert (Hsz : 0 <= size_field_of X) by apply be_int_nonneg.
  assert (Hlen : (642 <= length X)%nat)
    by (unfold rtl_size_of, SIZE_OF_SQFS_SUPER_BLOCK in Hr; lia).
  pose proof (cmd_extract_accepted args w X HX Hne Hm ltac:(lia)) as Hacc.
  cbv zeta in Hacc.
  assert (Hn : (2 * Z.to_nat (rtl_size_of X / 2))%nat = length X).
  { pose proof (Z.div_mod (Z.of_nat (length X)) 2 ltac:(lia)). rewrite Hr. lia. }
  rewrite Hn in Hacc. rewrite decide_True in Hacc by lia.
  rewrite Hacc. cbn [fst snd files]. rewrite lookup_insert_eq.
  repeat split. rewrite length_app, !length_take. lia.
Qed.

Lemma cmd_extract_whole_file_witness :
  let X := vendor_642 in
  let w := example_world "rootfs.bin" X in
  (cmd_extract example_args w).1 = Ok tt /\
  files (cmd_extract example_args w).2 !! "extracted.sqfs" =
    Some (take 22 X ++ take (length X - 2) X) /\
  Z.of_nat (length (take 22 X ++ take (length X - 2) X)) = rtl_size_of X + 20.
Proof.
  apply (cmd_extract_whole_file example_args
           (example_world "rootfs.bin" vendor_642) vendor_642).
  - vm_compute. reflexivity.
  - vm_compute. discriminate.
  - vm_compute. reflexivity.
  - vm_compute. reflexivity.
  - exists 321%nat. vm_compute. reflexivity.
Defined.

(** X14.  The loop of [cmd_check] and [_checksum_buffer] compute the same
    sum: on an accepted file [cmd_check] prints "Checksum passed" when
    [_checksum_buffer] returns 0 on the bytes the loop reads (the first
    [2 * (protected_size // 2)] bytes), and "Checksum failed" when it
    returns anything else. *)
Theorem cmd_check_agrees_with_checksum_buffer
    (args : Namespace) (w : world) (X : list byte) :
  files w !! rootfs_flash_image args = Some X ->
  (cmd_check args w).1 = Ok tt ->
  let region := take (2 * Z.to_nat (rtl_size_of X / 2)) X in
  (_checksum_buffer region 0 = Ok 0 ->
   stdout (cmd_check args w).2 = stdout w ++ ["Checksum passed"]) /\
  (_checksum_buffer region 0 <> Ok 0 ->
   stdout (cmd_check args w).2 = stdout w ++ ["Checksum failed"]).
Proof.
  intros HX Hok region.
  destruct (cmd_check_Ok_inv args w X HX Hok) as (Hlen & Hm & Hb).
  rewrite (cmd_check_accepted args w X HX Hm Hb). cbn [snd stdout]. fold region.
  assert (Hev : Z.of_nat (length region) mod 2 = 0).
  { unfold region. rewrite length_take.
    assert (Hsz : 0 <= size_field_of X) by apply be_int_nonneg.
    pose proof (Z.div_mod (rtl_size_of X) 2 ltac:(lia)).
    pose proof (Z.mod_pos_bound (rtl_size_of X) 2 ltac:(lia)).
    unfold rtl_size_of, SIZE_OF_SQFS_SUPER_BLOCK in *.
    replace (Z.of_nat ((2 * Z.to_nat ((size_field_of X + 640 + 2) / 2)) `min` length X))
      with (0 + ((size_field_of X + 640 + 2) / 2) * 2) by lia.
    now rewrite Z.mod_add by lia. }
  rewrite (checksum_buffer_even region Hev 0). fold (word_sum region).
  split; intros H.
  - injection H as H. now rewrite decide_False by lia.
  - rewrite decide_True; [reflexivity|]. intros E. apply H. now rewrite E.
Qed.

Lemma cmd_check_agrees_with_checksum_buffer_witness :
  let X := vendor_642 in
  let w := example_world "rootfs.bin" X in
  let region := take (2 * Z.to_nat (rtl_size_of X / 2)) X in
  (_checksum_buffer region 0 = Ok 0 ->
   stdout (cmd_check example_args w).2 = stdout w ++ ["Checksum passed"]) /\
  (_checksum_buffer region 0 <> Ok 0 ->
   stdout (cmd_check example_args w).2 = stdout w ++ ["Checksum failed"]).
Proof.
  apply (cmd_check_agrees_with_checksum_buffer example_args
           (example_world "rootfs.bin" vendor_642) vendor_642).
  - vm_compute. reflexivity.
  - vm_compute. reflexivity.
Defined.

(** ** A missing input file *)

(** X15.  Every command asks for the size of its input first: when the
    input file does not exist, it raises the error of the missing file and
    leaves the world as it was; [cmd_build], [cmd_sum] and [cmd_extract]
    have not created their output. *)
Theorem missing_input_file (args : Namespace) (w : world) :
  (files w !! rootfs_flash_image args = None ->
   cmd_check args w = (Raise (FileNotFoundError (rootfs_flash_image args)), w) /\
   cmd_extract args w = (Raise (FileNotFoundError (rootfs_flash_image args)), w)) /\
  (files w !! squashfs_image args = None ->
   cmd_build args w = (Raise (FileNotFoundError (squashfs_image args)), w) /\
   cmd_sum args w = (Raise (FileNotFoundError (squashfs_image args)), w)).
Proof.
  split; intros H.
  - split.
    + unfold cmd_check, bind, getsize. now rewrite H.
    + unfold cmd_extract, bind, getsize. now rewrite H.
  - split.
    + unfold cmd_build, bind, getsize. now rewrite H.
    + rewrite cmd_sum_eq. unfold cmd_build, bind, getsize.
      cbn [sum_args squashfs_image]. now rewrite H.
Qed.

Lemma missing_input_file_witness :
  let w := example_world "notes.txt" [] in
  (cmd_check example_args w = (Raise (FileNotFoundError "rootfs.bin"), w) /\
   cmd_extract example_args w = (Raise (FileNotFoundError "rootfs.bin"), w)) /\
  (cmd_build example_args w = (Raise (FileNotFoundError "rootfs.sqfs"), w) /\
   cmd_sum example_args w = (Raise (FileNotFoundError "rootfs.sqfs"), w)).
Proof.
  destruct (missing_input_file example_args (example_world "notes.txt" []))
    as [Hc Hb].
  split.
  - apply Hc. vm_compute. reflexivity.
  - apply Hb. vm_compute. reflexivity.
Defined.
